(** * Flask-Store, [flask_store.stores.local]: the [LocalStore] provider

    A shallow embedding of [src/flask_store/stores/local.py] and the
    properties of its path construction, URL composition, configuration
    defaults and save protocol.

    Python [str] values are [string]s; [os.path] is the POSIX flavour
    ([os.path.sep = "/"]).  The application configuration
    ([current_app.config]) is a dictionary, here a [gmap] from keys to Python
    values.  Code that touches the file system or the upload handle runs in a
    state-and-exception monad over an abstract world. *)

From Stdlib Require Import ZArith Ascii String List Bool Lia.
From stdpp Require Import base option list strings gmap.

Open Scope string_scope.
Open Scope list_scope.

(** ** Python string primitives used by the module *)

Module PyStr.

(** [os.path.sep] on POSIX. *)
Definition sep : ascii := "/"%char.

(** [s.lstrip(c)] for a one-character strip set. *)
Fixpoint lstrip (c : ascii) (s : string) : string :=
  match s with
  | EmptyString => EmptyString
  | String a s' => if Ascii.eqb a c then lstrip c s' else s
  end.

(** [s.rstrip(c)] for a one-character strip set. *)
Fixpoint rstrip (c : ascii) (s : string) : string :=
  match s with
  | EmptyString => EmptyString
  | String a s' =>
      match rstrip c s' with
      | EmptyString => if Ascii.eqb a c then EmptyString else String a EmptyString
      | r => String a r
      end
  end.

(** [s.startswith(c)] and [s.endswith(c)] for a single character. *)
Definition startswith (c : ascii) (s : string) : bool :=
  match s with
  | EmptyString => false
  | String a _ => Ascii.eqb a c
  end.

Fixpoint endswith (c : ascii) (s : string) : bool :=
  match s with
  | EmptyString => false
  | String a EmptyString => Ascii.eqb a c
  | String _ s' => endswith c s'
  end.

(** [s == c * len(s)]. *)
Fixpoint all_chars (c : ascii) (s : string) : bool :=
  match s with
  | EmptyString => true
  | String a s' => Ascii.eqb a c && all_chars c s'
  end.

(** [c in s]. *)
Fixpoint contains (c : ascii) (s : string) : bool :=
  match s with
  | EmptyString => false
  | String a s' => Ascii.eqb a c || contains c s'
  end.

(** [s.split(c)]: always at least one field. *)
Fixpoint split (c : ascii) (s : string) : list string :=
  match s with
  | EmptyString => [EmptyString]
  | String a s' =>
      if Ascii.eqb a c then EmptyString :: split c s'
      else match split c s' with
           | [] => [String a EmptyString]
           | w :: ws => String a w :: ws
           end
  end.

(** [c.join(l)]. *)
Fixpoint concat_with (c : string) (l : list string) : string :=
  match l with
  | [] => EmptyString
  | [x] => x
  | x :: xs => x +:+ c +:+ concat_with c xs
  end.

End PyStr.

(** ** [posixpath] *)

Module PosixPath.
Import PyStr.

(** [posixpath.join(a, b)]: an absolute [b] discards [a]. *)
Definition join2 (path b : string) : string :=
  if startswith sep b then b
  else if String.eqb path "" || endswith sep path then path +:+ b
  else path +:+ "/" +:+ b.

(** [p.rfind("/") + 1]: the length of the longest prefix ending in a
    separator, 0 when there is none. *)
Fixpoint rfind_succ (p : string) : nat :=
  match p with
  | EmptyString => 0
  | String a p' =>
      match rfind_succ p' with
      | 0 => if Ascii.eqb a sep then 1 else 0
      | S k => S (S k)
      end
  end.

(** [posixpath.dirname]. *)
Definition dirname (p : string) : string :=
  let i := rfind_succ p in
  let head := substring 0 i p in
  if negb (String.eqb head "") && negb (all_chars sep head)
  then rstrip sep head
  else head.

(** The component loop of [posixpath.normpath]. *)
Definition normpath_step (initial_slashes : nat) (new_comps : list string)
    (comp : string) : list string :=
  if String.eqb comp "" || String.eqb comp "." then new_comps
  else if negb (String.eqb comp "..")
          || (Nat.eqb initial_slashes 0 && bool_decide (new_comps = []))
          || match last new_comps with
             | Some c => String.eqb c ".."
             | None => false
             end
       then new_comps ++ [comp]
       else removelast new_comps.

(** One or two initial slashes are kept, three or more count as one. *)
Definition initial_slashes (path : string) : nat :=
  if startswith sep path then
    if String.prefix "//" path && negb (String.prefix "///" path) then 2 else 1
  else 0.

(** [slash * n]. *)
Fixpoint slashes (n : nat) : string :=
  match n with
  | 0 => EmptyString
  | S k => String sep (slashes k)
  end.

(** A component that the loop keeps: neither empty nor a single dot. *)
Definition real_comp (comp : string) : bool :=
  negb (String.eqb comp "" || String.eqb comp ".").

Definition normpath_comps (path : string) : list string :=
  fold_left (normpath_step (initial_slashes path)) (split sep path) [].

(** [posixpath.normpath]. *)
Definition normpath (path : string) : string :=
  if String.eqb path "" then "."
  else
    let p := concat_with "/" (normpath_comps path) in
    let p := slashes (initial_slashes path) +:+ p in
    if String.eqb p "" then "." else p.

End PosixPath.

(** ** Exceptions and Python values *)

Inductive exn :=
| OSError (errno : Z)
| IOError (msg : string)
| KeyError (key : string)
| TypeError
| ValueError (msg : string)
| OtherError (msg : string).

Inductive result (A : Type) :=
| Ok (a : A)
| Raise (e : exn).
Arguments Ok {A} a.
Arguments Raise {A} e.

Definition rbind {A B} (r : result A) (k : A -> result B) : result B :=
  match r with
  | Ok a => k a
  | Raise e => Raise e
  end.

Declare Scope result_scope.
Delimit Scope result_scope with result.
Notation "x <~ c1 ; c2" := (rbind c1 (fun x => c2))
  (at level 100, c1 at next level, right associativity) : result_scope.

(** [errno.EEXIST] and [errno.EACCES] on Linux. *)
Definition EEXIST : Z := 17.
Definition EACCES : Z := 13.

(** Configuration values: [None] or a string. *)
Inductive pyval :=
| PyNone
| PyStr (s : string).

(** [bool(v)]. *)
Definition py_bool (v : pyval) : bool :=
  match v with
  | PyNone => false
  | PyStr s => negb (String.eqb s "")
  end.

(** A string operation applied to a value: [None] has no string methods. *)
Definition as_str (v : pyval) : result string :=
  match v with
  | PyStr s => Ok s
  | PyNone => Raise TypeError
  end.

(** [app.config]: a dictionary. *)
Abbreviation config := (gmap string pyval).

(** [config[key]]: a missing key raises [KeyError]. *)
Definition getitem (c : config) (key : string) : result pyval :=
  match c !! key with
  | Some v => Ok v
  | None => Raise (KeyError key)
  end.

(** [config.setdefault(key, value)], as the updated dictionary. *)
Definition setdefault (key : string) (value : pyval) (c : config) : config :=
  match c !! key with
  | Some _ => c
  | None => <[key := value]> c
  end.

(** ** [urlparse] (CPython 2.7), without its parse cache *)

Module UrlParse.
Import PyStr.

Definition uses_relative : list string :=
  ["ftp"; "http"; "gopher"; "nntp"; "imap"; "wais"; "file"; "https";
   "shttp"; "mms"; "prospero"; "rtsp"; "rtspu"; ""; "sftp"; "svn"; "svn+ssh"].

Definition uses_netloc : list string :=
  ["ftp"; "http"; "gopher"; "nntp"; "telnet"; "imap"; "wais"; "file"; "mms";
   "https"; "shttp"; "snews"; "prospero"; "rtsp"; "rtspu"; "rsync"; "";
   "svn"; "svn+ssh"; "sftp"; "nfs"; "git"; "git+ssh"].

Definition uses_params : list string :=
  ["ftp"; "hdl"; "prospero"; "http"; "imap"; "https"; "shttp"; "rtsp";
   "rtspu"; "sip"; "sips"; "mms"; ""; "sftp"; "tel"].

Definition scheme_chars : string :=
  "abcdefghijklmnopqrstuvwxyzABCDEFGHIJKLMNOPQRSTUVWXYZ0123456789+-.".

Definition mem (x : string) (l : list string) : bool :=
  existsb (String.eqb x) l.

(** [all(c in chars for c in s)]. *)
Fixpoint all_in (chars s : string) : bool :=
  match s with
  | EmptyString => true
  | String a s' => contains a chars && all_in chars s'
  end.

Definition lower_char (a : ascii) : ascii :=
  let n := nat_of_ascii a in
  if Nat.leb 65 n && Nat.leb n 90 then ascii_of_nat (n + 32) else a.

(** [s.lower()]. *)
Fixpoint lower (s : string) : string :=
  match s with
  | EmptyString => EmptyString
  | String a s' => String (lower_char a) (lower s')
  end.

(** [s.split(c, 1)] when [c in s]: the text before and after the first [c]. *)
Fixpoint partition (c : ascii) (s : string) : option (string * string) :=
  match s with
  | EmptyString => None
  | String a s' =>
      if Ascii.eqb a c then Some (EmptyString, s')
      else match partition c s' with
           | Some (l, r) => Some (String a l, r)
           | None => None
           end
  end.

(** [_splitnetloc(url, 2)] on a [url] that starts with two slashes, given
    here the text after them: the host runs up to the first of [/?#]. *)
Fixpoint splitnetloc (s : string) : string * string :=
  match s with
  | EmptyString => (EmptyString, EmptyString)
  | String a s' =>
      if contains a "/?#" then (EmptyString, s)
      else let '(h, r) := splitnetloc s' in (String a h, r)
  end.

Record SplitResult := {
  sp_scheme : string; sp_netloc : string; sp_path : string;
  sp_query : string; sp_fragment : string }.

(** The common tail of [urlsplit]: authority, with the check of its
    brackets, then fragment and query. *)
Definition split_rest (scheme url : string) : result SplitResult :=
  let '(netloc, url) :=
    match url with
    | String "/" (String "/" r) => splitnetloc r
    | _ => (EmptyString, url)
    end in
  let '(url, fragment) :=
    match partition "#" url with
    | Some (u, f) => (u, f)
    | None => (url, EmptyString)
    end in
  let '(url, query) :=
    match partition "?" url with
    | Some (u, q) => (u, q)
    | None => (url, EmptyString)
    end in
  if (contains "[" netloc && negb (contains "]" netloc))
     || (contains "]" netloc && negb (contains "[" netloc))
  then Raise (ValueError "Invalid IPv6 URL")
  else Ok {| sp_scheme := scheme; sp_netloc := netloc; sp_path := url;
             sp_query := query; sp_fragment := fragment |}.

(** [urlsplit(url, scheme)]. *)
Definition urlsplit (url scheme : string) : result SplitResult :=
  match partition ":" url with
  | Some (String a pre' as pre, rest) =>
      if String.eqb pre "http" then split_rest (lower pre) rest
      else if all_in scheme_chars pre
              && (String.eqb rest "" || negb (all_in "0123456789" rest))
           then split_rest (lower pre) rest
           else split_rest scheme url
  | _ => split_rest scheme url
  end.

(** [_splitparams]: the parameters follow the first [;] of the last path
    segment. *)
Definition splitparams (url : string) : string * string :=
  if contains "/" url then
    let i := PosixPath.rfind_succ url in
    match partition ";" (substring i (String.length url - i) url) with
    | Some (l, r) => (substring 0 i url +:+ l, r)
    | None => (url, EmptyString)
    end
  else
    match partition ";" url with
    | Some (l, r) => (l, r)
    | None => (url, EmptyString)
    end.

Record ParseResult := {
  p_scheme : string; p_netloc : string; p_path : string;
  p_params : string; p_query : string; p_fragment : string }.

(** [urlparse(url, scheme)]. *)
Definition urlparse (url scheme : string) : result ParseResult :=
  (t <~ urlsplit url scheme;
   let '(path, params) :=
     if mem (sp_scheme t) uses_params && contains ";" (sp_path t)
     then splitparams (sp_path t)
     else (sp_path t, EmptyString) in
   Ok {| p_scheme := sp_scheme t; p_netloc := sp_netloc t; p_path := path;
         p_params := params; p_query := sp_query t;
         p_fragment := sp_fragment t |})%result.

(** [urlunsplit]. *)
Definition urlunsplit (scheme netloc url query fragment : string) : string :=
  let url :=
    if negb (String.eqb netloc "")
       || (negb (String.eqb scheme "") && mem scheme uses_netloc
           && negb (String.eqb (substring 0 2 url) "//"))
    then
      let url := if negb (String.eqb url "") && negb (startswith "/" url)
                 then "/" +:+ url else url in
      "//" +:+ netloc +:+ url
    else url in
  let url := if negb (String.eqb scheme "") then scheme +:+ ":" +:+ url else url in
  let url := if negb (String.eqb query "") then url +:+ "?" +:+ query else url in
  let url := if negb (String.eqb fragment "") then url +:+ "#" +:+ fragment else url in
  url.

(** [urlunparse]. *)
Definition urlunparse (r : ParseResult) : string :=
  let url := if negb (String.eqb (p_params r) "")
             then p_path r +:+ ";" +:+ p_params r else p_path r in
  urlunsplit (p_scheme r) (p_netloc r) url (p_query r) (p_fragment r).

(** One round of the inner [while i < n] loop of [urljoin]: delete the first
    [x/..] pair whose [..] is not the last segment. *)
Fixpoint collapse_once (segments : list string) : option (list string) :=
  match segments with
  | a :: ((b :: ((_ :: _) as rest)) as tl) =>
      if String.eqb b ".." && negb (String.eqb a "") && negb (String.eqb a "..")
      then Some rest
      else option_map (cons a) (collapse_once tl)
  | _ => None
  end.

(** The outer [while 1] loop; every round removes two segments. *)
Fixpoint collapse (fuel : nat) (segments : list string) : list string :=
  match fuel with
  | 0 => segments
  | S k =>
      match collapse_once segments with
      | Some l => collapse k l
      | None => segments
      end
  end.

(** [segments[-1] = x] on a non-empty list. *)
Definition set_last (x : string) (segments : list string) : list string :=
  removelast segments ++ [x].

(** The path merge at the end of [urljoin]. *)
Definition merge_segments (bpath path : string) : string :=
  let segments := removelast (split "/" bpath) ++ split "/" path in
  let segments := if bool_decide (last segments = Some ".")
                  then set_last "" segments else segments in
  let segments := filter (fun x => x <> ".") segments in
  let segments := collapse (List.length segments) segments in
  let segments :=
    if bool_decide (segments = [""; ".."]) then set_last "" segments
    else if Nat.leb 2 (List.length segments)
            && bool_decide (last segments = Some "..")
         then removelast (removelast segments) ++ [""]
         else segments in
  concat_with "/" segments.

(** [urljoin(base, url)]; [base] may be [None]. *)
Definition urljoin (base : pyval) (url : string) : result string :=
  match base with
  | PyNone => Ok url
  | PyStr base =>
      if String.eqb base "" then Ok url
      else if String.eqb url "" then Ok base
      else
        (b <~ urlparse base "";
         u <~ urlparse url (p_scheme b);
         Ok (if negb (String.eqb (p_scheme u) (p_scheme b))
                || negb (mem (p_scheme u) uses_relative)
             then url
             else if mem (p_scheme u) uses_netloc
                     && negb (String.eqb (p_netloc u) "")
             then urlunparse u
             else
               let netloc := if mem (p_scheme u) uses_netloc
                             then p_netloc b else p_netloc u in
               let u := {| p_scheme := p_scheme u; p_netloc := netloc;
                           p_path := p_path u; p_params := p_params u;
                           p_query := p_query u; p_fragment := p_fragment u |} in
               if startswith "/" (p_path u) then urlunparse u
               else if String.eqb (p_path u) "" && String.eqb (p_params u) "" then
                 urlunparse
                   {| p_scheme := p_scheme u; p_netloc := netloc;
                      p_path := p_path b; p_params := p_params b;
                      p_query := if String.eqb (p_query u) ""
                                 then p_query b else p_query u;
                      p_fragment := p_fragment u |}
               else
                 urlunparse
                   {| p_scheme := p_scheme u; p_netloc := netloc;
                      p_path := merge_segments (p_path b) (p_path u);
                      p_params := p_params u; p_query := p_query u;
                      p_fragment := p_fragment u |}))%result
  end.

End UrlParse.

(** ** The store object *)

(** The attributes of [self] that [LocalStore] reads: [store_path] and
    [destination] (set by [BaseStore]'s constructor; [None] or a string). *)
Record Store := {
  store_path : string;
  destination : option string;
}.

(** Python truthiness of an optional string: [None] and [""] are false. *)
Definition truthy (o : option string) : bool :=
  match o with
  | Some s => negb (String.eqb s "")
  | None => false
  end.

(** ** The file system, the upload handle and the monad of [save] *)

(** The calls [save] makes that change the world or the handle, in the order
    they are made. *)
Inductive call :=
| CallMakedirs (directory : string)
| CallSave (path : string)
| CallClose.

Global Instance call_eq_dec : EqDecision call.
Proof. solve_decision. Defined.

Section World.
Context {W : Type}.

(** The state threaded through [save]: the world (file system and
    everything else outside the process) and the calls made so far. *)
Record state := { world : W; calls : list call }.

Definition M (A : Type) : Type := state -> result A * state.

Definition ret {A} (a : A) : M A := fun s => (Ok a, s).

Definition raise {A} (e : exn) : M A := fun s => (Raise e, s).

Definition bind {A B} (m : M A) (k : A -> M B) : M B :=
  fun s => match m s with
           | (Ok a, s') => k a s'
           | (Raise e, s') => (Raise e, s')
           end.

(** [try: m except Exception as e: h(e)]. *)
Definition try_except {A} (m : M A) (h : exn -> M A) : M A :=
  fun s => match m s with
           | (Ok a, s') => (Ok a, s')
           | (Raise e, s') => h e s'
           end.

(** A query that leaves the world as it is. *)
Definition query {A} (f : W -> A) : M A := fun s => (Ok (f (world s)), s).

(** A call that may change the world, entered in the list of calls. *)
Definition perform {A} (c : call) (f : W -> result A * W) : M A :=
  fun s => let '(r, w) := f (world s) in
           (r, {| world := w; calls := calls s ++ [c] |}).

(** The functions of [os] and [os.path] that [LocalStore] calls.  What they
    answer is up to the world, which other processes change as well. *)
Record OS := {
  os_path_exists : string -> W -> bool;
  os_path_isdir : string -> W -> bool;
  os_makedirs : string -> W -> result unit * W;
}.

(** The uploaded file, [werkzeug.datastructures.FileStorage]: the declared
    filename and the two methods [save] uses. *)
Record FileStorage := {
  filename : string;
  file_save : string -> W -> result unit * W;
  file_close : W -> result unit * W;
}.

End World.

Arguments state W : clear implicits.
Arguments M W A : clear implicits.
Arguments OS W : clear implicits.
Arguments FileStorage W : clear implicits.

Declare Scope m_scope.
Delimit Scope m_scope with M.
Notation "x <- c1 ;; c2" := (bind c1 (fun x => c2))
  (at level 100, c1 at next level, right associativity) : m_scope.
Notation "c1 ;; c2" := (bind c1 (fun _ => c2))
  (at level 100, right associativity) : m_scope.

(** ** [flask_store.utils] *)

Module Utils.
Import PyStr.

(** The characters unsafe in a URL (RFC 1738, section 2.2): controls and
    space, everything from DEL upwards, and the double quote, [<], [>],
    [#], [%], the braces, the bar, the backslash, the caret, the tilde, the
    brackets and the backquote.  Reserved characters such as [/] and [:]
    are not unsafe. *)
Definition unsafe_codes : list nat :=
  [34; 60; 62; 35; 37; 123; 125; 124; 92; 94; 126; 91; 93; 96].

Definition unsafe (a : ascii) : bool :=
  let n := nat_of_ascii a in
  Nat.leb n 32 || Nat.leb 127 n || existsb (Nat.eqb n) unsafe_codes.

Definition hex_digit (n : nat) : ascii :=
  default "0"%char (String.get n "0123456789ABCDEF").

(** [%XX] for one character. *)
Definition percent (a : ascii) : string :=
  let n := nat_of_ascii a in
  String "%" (String (hex_digit (n / 16)) (String (hex_digit (n mod 16)) EmptyString)).

(** Modelled from the spec: [flask_store.utils.path_to_uri] is imported by
    [local.py] but is not among the sources.  The spec describes it as a
    path-to-URI encoder that encodes the characters unsafe in a URL while
    leaving [/] as a segment separator: every unsafe character is replaced
    by its percent escape, every other character is kept. *)
Fixpoint path_to_uri (path : string) : string :=
  match path with
  | EmptyString => EmptyString
  | String a s => (if unsafe a then percent a else String a EmptyString) +:+ path_to_uri s
  end.

End Utils.

Module LocalStore.
Import PyStr.

(** [app_defaults(app)], as the resulting [app.config]; [cwd] is what
    [os.getcwdu()] returns at the call. *)
Definition app_defaults (cwd : string) (c : config) : config :=
  let c := setdefault "STORE_PATH" (PyStr cwd) c in
  setdefault "STORE_URL_PREFIX" (PyStr "/flaskstore") c.

(** The loop of [join]: [enumerate(parts)] with the running [path]. *)
Fixpoint join_loop (i : nat) (parts : list string) (path : string) : string :=
  match parts with
  | [] => path
  | part :: rest =>
      let part := if Nat.ltb 0 i then lstrip sep part else part in
      join_loop (S i) rest (PosixPath.join2 path part)
  end.

(** [join], applied to the list of its positional arguments. *)
Definition join (parts : list string) : string :=
  rstrip sep (join_loop 0 parts "").

(** Modelled from the spec: [url_join] is inherited from [BaseStore], which
    is not among the sources.  The spec has the URL segments joined with
    the same separator-stripping join logic as paths. *)
Definition url_join (parts : list string) : string := join parts.

(** [absolute_path(filename)]. *)
Definition absolute_path (self : Store) (filename : string) : string :=
  join [store_path self; filename].

(** [relative_path(filename)]. *)
Definition relative_path (self : Store) (filename : string) : string :=
  let parts := [] in
  let parts := if truthy (destination self)
               then parts ++ [default "" (destination self)] else parts in
  let parts := parts ++ [filename] in
  join parts.

(** [relative_url(filename)]; [c] is [current_app.config]. *)
Definition relative_url (c : config) (self : Store) (filename : string)
  : result string :=
  (prefix <~ getitem c "STORE_URL_PREFIX";
   prefix <~ as_str prefix;
   let parts := [prefix] in
   let parts := if truthy (destination self)
                then parts ++ [default "" (destination self)] else parts in
   let parts := parts ++ [filename] in
   Ok (Utils.path_to_uri (url_join parts)))%result.

(** [absolute_url(filename)].  The value bound in the [if] is overwritten
    by the assignment that follows it. *)
Definition absolute_url (c : config) (self : Store) (filename : string)
  : result string :=
  (domain <~ getitem c "STORE_DOMAIN";
   path <~ (if negb (py_bool domain) then relative_url c self filename
            else Ok EmptyString);
   domain <~ getitem c "STORE_DOMAIN";
   rel <~ relative_url c self filename;
   path <~ UrlParse.urljoin domain rel;
   Ok (Utils.path_to_uri path))%result.

Section Filesystem.
Context {W : Type}.
Variable os : OS W.

(** Modelled from the spec: [safe_filename] is inherited from [BaseStore],
    which is not among the sources.  The spec leaves it unspecified
    beyond being a sanitising function of the declared filename. *)
Variable safe_filename : string -> string.

(** [exists(filename)]. *)
Definition exists_ (self : Store) (filename : string) (w : W) : bool :=
  let path := join [store_path self; filename] in
  os_path_exists os path w.

(** The handler of [except OSError as e] around [os.makedirs]. *)
Definition makedirs_handler (e : exn) : M W unit :=
  match e with
  | OSError errno => if negb (Z.eqb errno EEXIST) then raise e else ret tt
  | _ => raise e
  end.

(** [save(file)]. *)
Definition save (self : Store) (file : FileStorage W) : M W string :=
  (let filename := safe_filename (filename file) in
   let path := join [store_path self; filename] in
   let directory := PosixPath.dirname path in
   ex <- query (os_path_exists os directory);;
   (if negb ex
    then try_except (perform (CallMakedirs directory) (os_makedirs os directory))
                    makedirs_handler
    else ret tt);;
   isdir <- query (os_path_isdir os directory);;
   (if negb isdir
    then raise (IOError (directory +:+ " is not a directory"))
    else ret tt);;
   perform (CallSave path) (file_save file path);;
   perform CallClose (file_close file);;
   ret filename)%M.

End Filesystem.

End LocalStore.



(** ** A simulated POSIX world, used to run [save] on concrete inputs *)

Module Sim.
Import PyStr.

Inductive node :=
| File (data : string)
| Dir.

Global Instance node_eq_dec : EqDecision node.
Proof. solve_decision. Defined.

(** The file system as a table from paths to nodes; [racer] is a directory
    that a concurrent caller creates between our [os.path.exists] and our
    [os.makedirs]; [readonly] makes every creation fail with [EACCES]. *)
Record posix := {
  fs : gmap string node;
  racer : option string;
  readonly : bool;
}.

Definition ENOTDIR : Z := 20.

(** [p] and its ancestors, nearest first. *)
Fixpoint ancestors (fuel : nat) (p : string) : list string :=
  match fuel with
  | 0 => []
  | S k =>
      let d := PosixPath.dirname p in
      if String.eqb p "" || String.eqb d p then []
      else p :: ancestors k d
  end.

Definition mkdir_all (dirs : list string) (t : gmap string node) : gmap string node :=
  foldr (fun d t => match t !! d with
                    | Some _ => t
                    | None => <[d := Dir]> t
                    end) t dirs.

Definition run_racer (w : posix) : posix :=
  match racer w with
  | Some d => {| fs := <[d := Dir]> (fs w); racer := None; readonly := readonly w |}
  | None => w
  end.

Definition makedirs (p : string) (w : posix) : result unit * posix :=
  let w := run_racer w in
  if readonly w then (Raise (OSError EACCES), w)
  else match fs w !! p with
       | Some _ => (Raise (OSError EEXIST), w)
       | None =>
           let up := ancestors (String.length p) (PosixPath.dirname p) in
           if existsb (fun d => match fs w !! d with
                                | Some (File _) => true
                                | _ => false
                                end) up
           then (Raise (OSError ENOTDIR), w)
           else (Ok tt, {| fs := <[p := Dir]> (mkdir_all up (fs w));
                           racer := racer w; readonly := readonly w |})
       end.

Definition os : OS posix := {|
  os_path_exists := fun p w => bool_decide (is_Some (fs w !! p));
  os_path_isdir := fun p w => bool_decide (fs w !! p = Some Dir);
  os_makedirs := makedirs;
|}.

(** An upload whose [save] writes [data] to the path it is given, when the
    parent is a directory and the path is not one. *)
Definition upload (name data : string) : FileStorage posix := {|
  filename := name;
  file_save := fun path w =>
    if bool_decide (fs w !! PosixPath.dirname path = Some Dir)
       && negb (bool_decide (fs w !! path = Some Dir))
    then (Ok tt, {| fs := <[path := File data]> (fs w);
                    racer := racer w; readonly := readonly w |})
    else (Raise (IOError "cannot open the destination for writing"), w);
  file_close := fun w => (Ok tt, w);
|}.

(** An upload whose [save] always fails, as on a full disk. *)
Definition failing_upload (name : string) : FileStorage posix := {|
  filename := name;
  file_save := fun path w => (Raise (IOError "No space left on device"), w);
  file_close := fun w => (Ok tt, w);
|}.

(** A sanitiser in the sense of the spec: the last path component, and a
    fixed name when that is empty or a dot name. *)
Definition basename_sanitiser (name : string) : string :=
  let b := List.last (split sep name) "" in
  if String.eqb b "" || String.eqb b "." || String.eqb b ".." then "upload" else b.

Definition start (t : gmap string node) : state posix :=
  {| world := {| fs := t; racer := None; readonly := false |}; calls := [] |}.

End Sim.

(** ** The two halves of [save] *)

Section SavePhases.
Context {W : Type}.
Variable os : OS W.

(** The directory step of [save]: the existence check and, when it fails,
    the guarded [os.makedirs]. *)
Definition ensure_directory (directory : string) : M W unit :=
  (ex <- query (os_path_exists os directory);;
   if negb ex
   then try_except (perform (CallMakedirs directory) (os_makedirs os directory))
                   LocalStore.makedirs_handler
   else ret tt)%M.

(** The rest of [save]: the directory check, the write, the close and the
    returned name. *)
Definition write_upload (directory path filename : string)
    (file : FileStorage W) : M W string :=
  (isdir <- query (os_path_isdir os directory);;
   (if negb isdir
    then raise (IOError (directory +:+ " is not a directory"))
    else ret tt);;
   perform (CallSave path) (file_save file path);;
   perform CallClose (file_close file);;
   ret filename)%M.

End SavePhases.

(** The number of times the upload was closed. *)
Definition closes (l : list call) : nat := count_occ call_eq_dec l CallClose.

(** The number of times the upload was asked to write. *)
Definition writes (l : list call) : nat :=
  List.length (List.filter (fun c => match c with CallSave _ => true | _ => false end) l).

(** The number of times a directory was asked for. *)
Definition mkdirs (l : list call) : nat :=
  List.length (List.filter (fun c => match c with CallMakedirs _ => true | _ => false end) l).

(** [any(unsafe(c) for c in s)]. *)
Fixpoint has_unsafe (s : string) : bool :=
  match s with
  | EmptyString => false
  | String a s' => Utils.unsafe a || has_unsafe s'
  end.

(** ** A store and a disk to run on *)

(** A store rooted at [/srv/store], without destination. *)
Definition site : Store := {| store_path := "/srv/store"; destination := None |}.

(** A disk with the root directory and [/srv], and nothing else. *)
Definition disk : gmap string Sim.node :=
  <["/srv" := Sim.Dir]> (<["/" := Sim.Dir]> ∅).

(** ** Repeated start-up *)

(** The defaulting step run once for every element of [cwds], the working
    directory at each run. *)
Definition run_defaults (cwds : list string) (c : config) : config :=
  foldl (fun c cwd => LocalStore.app_defaults cwd c) c cwds.

(** ** URL segments *)

(** The segments [relative_url] joins: the prefix, the destination when it is
    set, the filename. *)
Definition url_parts (prefix : string) (self : Store) (filename : string)
  : list string :=
  prefix :: (if truthy (destination self)
             then [default "" (destination self)] else []) ++ [filename].


(** ** Containment of paths *)

(** [path] resolves to [base] or to a location below it: after
    normalisation it is [base] itself or continues [base] past a separator. *)
Definition resolves_under (base path : string) : bool :=
  let b := PosixPath.normpath base in
  let p := PosixPath.normpath path in
  String.eqb p b
  || String.prefix (if PyStr.endswith PyStr.sep b then b else b +:+ "/") p.

(** * Properties *)

(** ** Sanity checks of the library models *)

Example join_a_slash_b : LocalStore.join ["a"; "/b"] = "a/b".
Proof. reflexivity. Qed.

Example dirname_ex : PosixPath.dirname "/srv/store/x.png" = "/srv/store".
Proof. reflexivity. Qed.

Example dirname_root_ex : PosixPath.dirname "/x.png" = "/".
Proof. reflexivity. Qed.

Example normpath_ex :
  PosixPath.normpath "/srv/store/../etc//./passwd" = "/srv/etc/passwd".
Proof. reflexivity. Qed.

Example urljoin_rfc_ex :
  UrlParse.urljoin (PyStr "http://a/b/c/d;p?q") "../g" = Ok "http://a/b/g"
  /\ UrlParse.urljoin (PyStr "http://a/b/c/d;p?q") "g;x?y#s"
     = Ok "http://a/b/c/g;x?y#s"
  /\ UrlParse.urljoin (PyStr "http://a/b/c/d;p?q") "//g" = Ok "http://g".
Proof. repeat split; reflexivity. Qed.

Example urljoin_ipv6_ex :
  UrlParse.urljoin (PyStr "http://[::1") "/flaskstore/a.png"
  = Raise (ValueError "Invalid IPv6 URL")
  /\ UrlParse.urljoin (PyStr "http://[::1]:8080") "/flaskstore/a.png"
     = Ok "http://[::1]:8080/flaskstore/a.png".
Proof. split; reflexivity. Qed.

(** ** Stripping *)

Section Strip.
Import PyStr.
Variable c : ascii.

Lemma lstrip_idem s : lstrip c (lstrip c s) = lstrip c s.
Proof.
  induction s as [|a s IH]; simpl; [reflexivity|].
  destruct (Ascii.eqb a c) eqn:E; [exact IH|].
  simpl. now rewrite E.
Qed.

Lemma lstrip_cons_sep s : lstrip c (String c s) = lstrip c s.
Proof. simpl. now rewrite Ascii.eqb_refl. Qed.

Lemma startswith_lstrip s : startswith c (lstrip c s) = false.
Proof.
  induction s as [|a s IH]; simpl; [reflexivity|].
  destruct (Ascii.eqb a c) eqn:E; [exact IH|].
  simpl. exact E.
Qed.

Lemma endswith_rstrip s : endswith c (rstrip c s) = false.
Proof.
  induction s as [|a s IH]; simpl; [reflexivity|].
  destruct (rstrip c s) as [|b r] eqn:R.
  - destruct (Ascii.eqb a c) eqn:E; simpl; [reflexivity|exact E].
  - exact IH.
Qed.

Lemma rstrip_idem s : rstrip c (rstrip c s) = rstrip c s.
Proof.
  induction s as [|a s IH]; simpl; [reflexivity|].
  destruct (rstrip c s) as [|b r] eqn:R.
  - destruct (Ascii.eqb a c) eqn:E; simpl; [reflexivity|now rewrite E].
  - change (rstrip c (String a (String b r))) with
      (match rstrip c (String b r) with
       | EmptyString => if Ascii.eqb a c then EmptyString else String a EmptyString
       | r' => String a r'
       end).
    now rewrite IH.
Qed.

End Strip.

(** ** [join] *)

Section Join.
Import PyStr LocalStore.

Lemma join_loop_fold i rest path :
  join_loop (S i) rest path
  = fold_left PosixPath.join2 (map (lstrip sep) rest) path.
Proof.
  revert i path. induction rest as [|p rest IH]; intros i path; simpl.
  - reflexivity.
  - apply IH.
Qed.

Lemma join_cons first rest :
  join (first :: rest)
  = rstrip sep (fold_left PosixPath.join2 (map (lstrip sep) rest)
                  (PosixPath.join2 "" first)).
Proof. unfold join. simpl. now rewrite join_loop_fold. Qed.

Lemma map_lstrip_idem rest :
  map (lstrip sep) (map (lstrip sep) rest) = map (lstrip sep) rest.
Proof.
  induction rest as [|p rest IH]; simpl; [reflexivity|].
  now rewrite lstrip_idem, IH.
Qed.

(** Segments that agree once their leading separators are gone are joined
    alike. *)
Lemma join_lstrip_ext first rest rest' :
  map (lstrip sep) rest = map (lstrip sep) rest' ->
  join (first :: rest) = join (first :: rest').
Proof. intros H. now rewrite !join_cons, H. Qed.

End Join.

(** C4.  For every sequence of segments, [join] strips the leading separators
    of every segment after the first before it concatenates (the result is
    the [os.path.join] chain over the stripped segments), and strips the
    trailing separators of the result; joining the segments and joining them
    with the leading separators of the non-first segments removed, all of
    them or one at a time, give the same path, as in
    [join("a", "/b") == join("a", "b")]. *)
Theorem join_strips_separators (first : string) (rest : list string) :
  LocalStore.join [] = ""
  /\ LocalStore.join (first :: rest)
     = PyStr.rstrip PyStr.sep
         (fold_left PosixPath.join2 (map (PyStr.lstrip PyStr.sep) rest)
            (PosixPath.join2 "" first))
  /\ PyStr.endswith PyStr.sep (LocalStore.join (first :: rest)) = false
  /\ LocalStore.join (first :: rest)
     = LocalStore.join (first :: map (PyStr.lstrip PyStr.sep) rest)
  /\ (forall pre s post,
        LocalStore.join (first :: pre ++ String PyStr.sep s :: post)
        = LocalStore.join (first :: pre ++ s :: post))
  /\ LocalStore.join ["a"; "/b"] = LocalStore.join ["a"; "b"].
Proof.
  split; [reflexivity|].
  split; [apply join_cons|].
  split; [apply endswith_rstrip|].
  split; [apply join_lstrip_ext; symmetry; apply map_lstrip_idem|].
  split; [|reflexivity].
  intros pre s post. apply join_lstrip_ext.
  rewrite !map_app. simpl. f_equal.
Qed.

Example under_ex :
  resolves_under "/srv/store" "/srv/store/a/../b.png" = true
  /\ resolves_under "/srv/store" "/srv/storefront/b.png" = false
  /\ resolves_under "/" "/etc/passwd" = true
  /\ resolves_under "/srv/store" "/srv/store/" = true.
Proof. repeat split; reflexivity. Qed.

(** ** Strings: appending, splitting, prefixes *)

Section StringFacts.
Import PyStr.
Variable c : ascii.

Lemma append_cons x (a b : string) : String x a +:+ b = String x (a +:+ b).
Proof. reflexivity. Qed.

Lemma append_nil_l (b : string) : "" +:+ b = b.
Proof. reflexivity. Qed.

Lemma append_assoc (a b d : string) : (a +:+ b) +:+ d = a +:+ (b +:+ d).
Proof.
  induction a as [|x a IH]; [reflexivity|].
  rewrite !append_cons. now rewrite IH.
Qed.

Lemma append_nil_r (a : string) : a +:+ "" = a.
Proof.
  induction a as [|x a IH]; [reflexivity|].
  rewrite append_cons. now rewrite IH.
Qed.

Lemma prefix_append (a b : string) : String.prefix a (a +:+ b) = true.
Proof.
  induction a as [|x a IH].
  - now destruct b.
  - rewrite append_cons. simpl.
    destruct (ascii_dec x x) as [_|N]; [exact IH|now destruct N].
Qed.

Lemma rstrip_cons a s :
  rstrip c (String a s)
  = match rstrip c s with
    | EmptyString => if Ascii.eqb a c then EmptyString else String a EmptyString
    | r => String a r
    end.
Proof. reflexivity. Qed.

Lemma split_cons a s :
  split c (String a s)
  = if Ascii.eqb a c then EmptyString :: split c s
    else match split c s with
         | [] => [String a EmptyString]
         | w :: ws => String a w :: ws
         end.
Proof. reflexivity. Qed.

Lemma endswith_cons2 a b r :
  endswith c (String a (String b r)) = endswith c (String b r).
Proof. reflexivity. Qed.

Lemma rstrip_id s : endswith c s = false -> rstrip c s = s.
Proof.
  induction s as [|a s IH]; [reflexivity|].
  destruct s as [|b r].
  - simpl. now intros ->.
  - rewrite endswith_cons2. intros H.
    rewrite rstrip_cons. now rewrite (IH H).
Qed.

(** Trailing separators are stripped from the appended part only, when the
    front does not end in one. *)
Lemma rstrip_append s t :
  endswith c s = false -> rstrip c (s +:+ t) = s +:+ rstrip c t.
Proof.
  induction s as [|a s IH]; [reflexivity|].
  destruct s as [|b r].
  - simpl. intros E. rewrite append_cons, !append_nil_l.
    destruct (rstrip c t); [now rewrite E|reflexivity].
  - rewrite endswith_cons2. intros H. specialize (IH H).
    rewrite (append_cons a), rstrip_cons, IH.
    now rewrite !append_cons.
Qed.

Lemma split_nonempty s : split c s <> [].
Proof.
  destruct s as [|a s]; simpl; [discriminate|].
  destruct (Ascii.eqb a c); [discriminate|].
  destruct (split c s); discriminate.
Qed.

Lemma split_append a b :
  split c (a +:+ String c b) = split c a ++ split c b.
Proof.
  induction a as [|x a IH].
  - rewrite append_nil_l, split_cons. now rewrite Ascii.eqb_refl.
  - rewrite append_cons, !split_cons, IH.
    destruct (Ascii.eqb x c); [reflexivity|].
    pose proof (split_nonempty a) as N.
    destruct (split c a); [now destruct N|reflexivity].
Qed.

Lemma split_lstrip_incl s x : In x (split c (lstrip c s)) -> In x (split c s).
Proof.
  induction s as [|a s IH]; [exact id|].
  rewrite split_cons. simpl lstrip. destruct (Ascii.eqb a c) eqn:E.
  - intros H. right. now apply IH.
  - rewrite split_cons. now rewrite E.
Qed.

(** Stripping trailing separators removes trailing empty fields. *)
Lemma split_rstrip s :
  exists k, split c s = split c (rstrip c s) ++ repeat "" k.
Proof.
  induction s as [|a s [k IH]]; [now exists 0|].
  rewrite rstrip_cons, split_cons.
  destruct (rstrip c s) as [|b r] eqn:R.
  - simpl in IH. destruct (Ascii.eqb a c) eqn:E.
    + exists (S k). simpl. now rewrite IH.
    + exists k. simpl. now rewrite E, IH.
  - rewrite split_cons, IH. destruct (Ascii.eqb a c) eqn:E.
    + now exists k.
    + exists k. pose proof (split_nonempty (String b r)) as N.
      destruct (split c (String b r)); [now destruct N|reflexivity].
Qed.

Lemma concat_with_app (l1 l2 : list string) :
  l1 <> [] -> l2 <> [] ->
  concat_with "/" (l1 ++ l2) = concat_with "/" l1 +:+ "/" +:+ concat_with "/" l2.
Proof.
  intros N1 N2. induction l1 as [|x l1 IH]; [now destruct N1|].
  destruct l1 as [|y l1].
  - simpl. destruct l2; [now destruct N2|reflexivity].
  - change (concat_with "/" ((x :: y :: l1) ++ l2))
      with (x +:+ "/" +:+ concat_with "/" ((y :: l1) ++ l2)).
    rewrite IH by discriminate.
    change (concat_with "/" (x :: y :: l1))
      with (x +:+ "/" +:+ concat_with "/" (y :: l1)).
    now rewrite !append_assoc.
Qed.

End StringFacts.

(** ** [normpath] on joined paths *)

Section Resolve.
Import PyStr PosixPath.

Lemma step_no_dotdot n acc x :
  x <> ".." ->
  normpath_step n acc x = if real_comp x then acc ++ [x] else acc.
Proof.
  intros N. unfold normpath_step, real_comp.
  destruct (String.eqb x "" || String.eqb x "."); [reflexivity|].
  apply String.eqb_neq in N. now rewrite N.
Qed.

Lemma fold_no_dotdot n l acc :
  ~ In ".." l ->
  fold_left (normpath_step n) l acc = acc ++ List.filter real_comp l.
Proof.
  revert acc. induction l as [|x l IH]; intros acc N; simpl.
  - now rewrite app_nil_r.
  - rewrite step_no_dotdot by (intros ->; apply N; now left).
    rewrite IH by (intros H; apply N; now right).
    destruct (real_comp x); [now rewrite <- app_assoc|reflexivity].
Qed.

Lemma startswith_nonempty s : startswith sep s = true -> String.eqb s "" = false.
Proof. now destruct s. Qed.

Lemma startswith_append s t :
  startswith sep s = true -> startswith sep (s +:+ t) = true.
Proof. now destruct s. Qed.

Lemma initial_slashes_pos s :
  startswith sep s = true -> initial_slashes s = 1 \/ initial_slashes s = 2.
Proof.
  intros H. unfold initial_slashes. rewrite H.
  destruct (String.prefix "//" s && negb (String.prefix "///" s)); auto.
Qed.

Lemma prefix_cons x p y s :
  String.prefix (String x p) (String y s)
  = if Ascii.eqb x y then String.prefix p s else false.
Proof.
  simpl. destruct (ascii_dec x y) as [->|N].
  - now rewrite Ascii.eqb_refl.
  - apply Ascii.eqb_neq in N. now rewrite N.
Qed.

(** The leading slashes of a path that does not end in a separator are
    not affected by what is appended. *)
Lemma initial_slashes_append s t :
  startswith sep s = true -> endswith sep s = false ->
  initial_slashes (s +:+ t) = initial_slashes s.
Proof.
  intros H E. unfold initial_slashes.
  rewrite (startswith_append s t H), H.
  destruct s as [|a [|b [|d r]]]; try discriminate.
  - simpl in H, E. congruence.
  - rewrite !append_cons, append_nil_l, !prefix_cons.
    simpl in E. unfold sep in E. rewrite (Ascii.eqb_sym "/" b), E.
    now destruct (Ascii.eqb "/" a).
  - rewrite !append_cons, !prefix_cons.
    destruct (Ascii.eqb "/" a), (Ascii.eqb "/" b), (Ascii.eqb "/" d);
      reflexivity || (simpl; now destruct (r +:+ t), r).
Qed.

Lemma normpath_absolute s :
  startswith sep s = true ->
  normpath s
  = slashes (initial_slashes s) +:+ concat_with "/" (normpath_comps s).
Proof.
  intros H. unfold normpath. rewrite (startswith_nonempty s H).
  destruct (initial_slashes_pos s H) as [-> | ->]; reflexivity.
Qed.

End Resolve.

(** ** [absolute_path] *)

Section AbsolutePath.
Import PyStr PosixPath LocalStore.

(** With an absolute base that does not end in a separator, the joined path
    is the base followed by the filename without its leading separators. *)
Lemma absolute_path_text self f :
  startswith sep (store_path self) = true ->
  endswith sep (store_path self) = false ->
  absolute_path self f
  = store_path self +:+ rstrip sep (String sep (lstrip sep f)).
Proof.
  intros H E. unfold absolute_path, join. simpl join_loop.
  assert (B : join2 "" (store_path self) = store_path self)
    by (unfold join2; now rewrite H).
  rewrite B. unfold join2.
  rewrite startswith_lstrip, (startswith_nonempty _ H), E. simpl orb. cbv iota.
  now rewrite rstrip_append.
Qed.

Lemma comps_absolute_path self f :
  startswith sep (store_path self) = true ->
  endswith sep (store_path self) = false ->
  ~ In ".." (split sep f) ->
  initial_slashes (absolute_path self f) = initial_slashes (store_path self)
  /\ exists rest,
       normpath_comps (absolute_path self f)
       = normpath_comps (store_path self) ++ rest.
Proof.
  intros H E N. rewrite (absolute_path_text self f H E).
  split; [now apply initial_slashes_append|].
  unfold normpath_comps. rewrite (initial_slashes_append _ _ H E).
  rewrite rstrip_cons. destruct (rstrip sep (lstrip sep f)) as [|b r] eqn:R.
  - exists []. rewrite Ascii.eqb_refl, append_nil_r. now rewrite app_nil_r.
  - exists (List.filter real_comp (split sep (String b r))).
    rewrite split_append, fold_left_app. apply fold_no_dotdot.
    intros I. apply N, split_lstrip_incl.
    destruct (split_rstrip sep (lstrip sep f)) as [k ->].
    apply in_or_app. left. now rewrite R.
Qed.

Lemma under_of_comps base path rest :
  startswith sep base = true -> startswith sep path = true ->
  initial_slashes path = initial_slashes base ->
  normpath_comps path = normpath_comps base ++ rest ->
  resolves_under base path = true.
Proof.
  intros Hb Hp Hn Hc. unfold resolves_under.
  rewrite (normpath_absolute _ Hb), (normpath_absolute _ Hp), Hn, Hc.
  set (S := slashes (initial_slashes base)).
  destruct rest as [|x rest].
  { now rewrite app_nil_r, String.eqb_refl. }
  apply orb_true_iff. right.
  destruct (normpath_comps base) as [|y cb] eqn:Cb.
  - assert (Es : endswith sep (S +:+ concat_with "/" []) = true).
    { unfold S. destruct (initial_slashes_pos _ Hb) as [-> | ->]; reflexivity. }
    rewrite Es. simpl concat_with at 1. rewrite append_nil_r.
    apply prefix_append.
  - rewrite concat_with_app by discriminate.
    destruct (endswith sep (S +:+ concat_with "/" (y :: cb))).
    + rewrite <- append_assoc. apply prefix_append.
    + rewrite <- !append_assoc. apply prefix_append.
Qed.

End AbsolutePath.

(** The text of the joined path.  With an absolute store path that does not
    end in a separator and a filename without [..] components, the result of
    [absolute_path] is the store path followed by the filename without its
    leading separators, and it resolves under the store path. *)
Theorem absolute_path_anchored (self : Store) (filename : string) :
  PyStr.startswith PyStr.sep (store_path self) = true ->
  PyStr.endswith PyStr.sep (store_path self) = false ->
  ~ In ".." (PyStr.split PyStr.sep filename) ->
  LocalStore.absolute_path self filename
  = LocalStore.join [store_path self; filename]
  /\ LocalStore.absolute_path self filename
     = store_path self
       +:+ PyStr.rstrip PyStr.sep (String PyStr.sep (PyStr.lstrip PyStr.sep filename))
  /\ resolves_under (store_path self) (LocalStore.absolute_path self filename) = true.
Proof.
  intros H E N. split; [reflexivity|].
  split; [now apply absolute_path_text|].
  destruct (comps_absolute_path self filename H E N) as [Hn [rest Hc]].
  apply (under_of_comps _ _ rest); try assumption.
  rewrite (absolute_path_text self filename H E).
  now apply startswith_append.
Qed.

Lemma absolute_path_anchored_witness :
  LocalStore.absolute_path {| store_path := "/srv/store"; destination := None |} "//etc/./passwd"
  = "/srv/store/etc/./passwd"
  /\ resolves_under "/srv/store"
       (LocalStore.absolute_path {| store_path := "/srv/store"; destination := None |}
          "//etc/./passwd") = true.
Proof.
  split; [reflexivity|].
  apply (absolute_path_anchored
           {| store_path := "/srv/store"; destination := None |} "//etc/./passwd").
  - reflexivity.
  - reflexivity.
  - simpl. intros [H|[H|[H|[H|[H|[]]]]]]; discriminate.
Defined.

(** C2 on the code.  [join] is documented as joining paths in a safe
    manner, yet a filename with [..] components is joined as it is: with
    store path [/srv/store] the filename [../../etc/passwd] gives a path that
    resolves to [/etc/passwd], outside the store path. *)
Lemma absolute_path_escapes :
  LocalStore.absolute_path {| store_path := "/srv/store"; destination := None |}
    "../../etc/passwd" = "/srv/store/../../etc/passwd"
  /\ PosixPath.normpath
       (LocalStore.absolute_path {| store_path := "/srv/store"; destination := None |}
          "../../etc/passwd") = "/etc/passwd"
  /\ resolves_under "/srv/store"
       (LocalStore.absolute_path {| store_path := "/srv/store"; destination := None |}
          "../../etc/passwd") = false.
Proof. repeat split; reflexivity. Qed.

(** ** Configuration defaults *)

Section Defaults.
Implicit Types (c : config) (k : string) (d v : pyval).

Lemma setdefault_set k d c : is_Some (c !! k) -> setdefault k d c = c.
Proof. intros [v Hv]. unfold setdefault. now rewrite Hv. Qed.

Lemma setdefault_unset k d c : c !! k = None -> setdefault k d c !! k = Some d.
Proof. intros Hn. unfold setdefault. rewrite Hn. apply lookup_insert_eq. Qed.

Lemma setdefault_is_Some k d c : is_Some (setdefault k d c !! k).
Proof.
  destruct (c !! k) as [v|] eqn:Hk.
  - rewrite setdefault_set by eauto. eauto.
  - rewrite setdefault_unset by assumption. eauto.
Qed.

Lemma setdefault_other k k' d c : k <> k' -> setdefault k d c !! k' = c !! k'.
Proof.
  intros Hne. unfold setdefault. destruct (c !! k); [reflexivity|].
  now apply lookup_insert_ne.
Qed.

Lemma app_defaults_keeps cwd c k v :
  c !! k = Some v -> LocalStore.app_defaults cwd c !! k = Some v.
Proof.
  intros Hk. unfold LocalStore.app_defaults.
  destruct (decide ("STORE_URL_PREFIX" = k)) as [<-|N1].
  - rewrite setdefault_set; rewrite setdefault_other by discriminate; eauto.
  - rewrite setdefault_other by assumption.
    destruct (decide ("STORE_PATH" = k)) as [<-|N2].
    + rewrite setdefault_set; eauto.
    + now rewrite setdefault_other.
Qed.

Lemma run_defaults_keeps cwds c k v :
  c !! k = Some v -> run_defaults cwds c !! k = Some v.
Proof.
  revert c. induction cwds as [|cwd cwds IH]; intros c Hk; [exact Hk|].
  apply IH. now apply app_defaults_keeps.
Qed.

Lemma app_defaults_twice cwd cwd' c :
  LocalStore.app_defaults cwd' (LocalStore.app_defaults cwd c)
  = LocalStore.app_defaults cwd c.
Proof.
  unfold LocalStore.app_defaults at 1.
  set (c1 := LocalStore.app_defaults cwd c).
  assert (H1 : is_Some (c1 !! "STORE_PATH")).
  { unfold c1, LocalStore.app_defaults.
    rewrite setdefault_other by discriminate. apply setdefault_is_Some. }
  assert (H2 : is_Some (c1 !! "STORE_URL_PREFIX")).
  { unfold c1, LocalStore.app_defaults. apply setdefault_is_Some. }
  rewrite (setdefault_set "STORE_PATH") by assumption.
  now rewrite setdefault_set.
Qed.

End Defaults.

(** C9.  The defaulting step sets [STORE_PATH] and [STORE_URL_PREFIX] only
    when they are unset: a value the application has set survives any number
    of runs, an unset key gets its default, no other key changes, and a
    second run changes nothing. *)
Theorem app_defaults_idempotent (c : config) (cwd cwd' : string) (cwds : list string) :
  (forall v, c !! "STORE_PATH" = Some v ->
             run_defaults cwds c !! "STORE_PATH" = Some v)
  /\ (forall v, c !! "STORE_URL_PREFIX" = Some v ->
                run_defaults cwds c !! "STORE_URL_PREFIX" = Some v)
  /\ (c !! "STORE_PATH" = None ->
      LocalStore.app_defaults cwd c !! "STORE_PATH" = Some (PyStr cwd))
  /\ (c !! "STORE_URL_PREFIX" = None ->
      LocalStore.app_defaults cwd c !! "STORE_URL_PREFIX" = Some (PyStr "/flaskstore"))
  /\ (forall k, k <> "STORE_PATH" -> k <> "STORE_URL_PREFIX" ->
                LocalStore.app_defaults cwd c !! k = c !! k)
  /\ LocalStore.app_defaults cwd' (LocalStore.app_defaults cwd c)
     = LocalStore.app_defaults cwd c.
Proof.
  split; [intros v; apply run_defaults_keeps|].
  split; [intros v; apply run_defaults_keeps|].
  split.
  { intros Hn. unfold LocalStore.app_defaults.
    rewrite setdefault_other by discriminate. now apply setdefault_unset. }
  split.
  { intros Hn. unfold LocalStore.app_defaults.
    apply setdefault_unset. now rewrite setdefault_other by discriminate. }
  split; [|apply app_defaults_twice].
  intros k N1 N2. unfold LocalStore.app_defaults.
  rewrite !setdefault_other; congruence.
Qed.

Lemma app_defaults_idempotent_witness :
  run_defaults ["/home/a"; "/home/b"; "/tmp"]
    (<["STORE_PATH" := PyStr "/srv/store"]> ∅) !! "STORE_PATH"
  = Some (PyStr "/srv/store")
  /\ LocalStore.app_defaults "/home/a" (<["STORE_PATH" := PyStr "/srv/store"]> ∅)
       !! "STORE_URL_PREFIX" = Some (PyStr "/flaskstore").
Proof.
  pose proof (app_defaults_idempotent
                (<["STORE_PATH" := PyStr "/srv/store"]> ∅) "/home/a" "/home/b"
                ["/home/a"; "/home/b"; "/tmp"]) as (H1 & _ & _ & H4 & _).
  split; [apply H1|apply H4]; reflexivity.
Defined.

(** ** URLs *)

Section Urls.
Import LocalStore.

Lemma relative_url_eq c self filename prefix :
  c !! "STORE_URL_PREFIX" = Some (PyStr prefix) ->
  relative_url c self filename
  = Ok (Utils.path_to_uri (url_join (url_parts prefix self filename))).
Proof.
  intros Hp. unfold relative_url, getitem, url_parts. rewrite Hp. simpl.
  now destruct (truthy (destination self)).
Qed.

(** What [absolute_url] returns: the bound of the [if] plays no part. *)
Lemma absolute_url_eq c self filename domain prefix :
  c !! "STORE_DOMAIN" = Some domain ->
  c !! "STORE_URL_PREFIX" = Some (PyStr prefix) ->
  absolute_url c self filename
  = rbind (UrlParse.urljoin domain
             (Utils.path_to_uri (url_join (url_parts prefix self filename))))
          (fun path => Ok (Utils.path_to_uri path)).
Proof.
  intros Hd Hp. unfold absolute_url, getitem. rewrite Hd. simpl.
  rewrite (relative_url_eq c self filename prefix Hp).
  now destruct (py_bool domain).
Qed.

Lemma urljoin_falsy domain url :
  py_bool domain = false -> UrlParse.urljoin domain url = Ok url.
Proof.
  destruct domain as [|d]; [reflexivity|].
  simpl. intros H. apply negb_false_iff in H.
  unfold UrlParse.urljoin. now rewrite H.
Qed.

(** A missing key is an error, for either function. *)
Lemma absolute_url_unset c self filename :
  c !! "STORE_DOMAIN" = None ->
  absolute_url c self filename = Raise (KeyError "STORE_DOMAIN").
Proof. intros Hd. unfold absolute_url, getitem. now rewrite Hd. Qed.

End Urls.

(** C7.  [absolute_url] resolves the relative URL (the prefix, then the
    destination when set, then the filename, joined and encoded) against the
    configured domain with [urljoin] and encodes the result, and raises what
    [urljoin] raises; with domain
    [https://cdn.example.com], prefix [/flaskstore] and destination
    [avatars], [absolute_url("x.png")] is
    [https://cdn.example.com/flaskstore/avatars/x.png]. *)
Theorem absolute_url_resolves (c : config) (self : Store) (filename : string)
    (domain : pyval) (prefix : string) :
  c !! "STORE_DOMAIN" = Some domain ->
  c !! "STORE_URL_PREFIX" = Some (PyStr prefix) ->
  exists rel,
    LocalStore.relative_url c self filename = Ok rel
    /\ rel = Utils.path_to_uri
               (LocalStore.url_join (url_parts prefix self filename))
    /\ LocalStore.absolute_url c self filename
       = rbind (UrlParse.urljoin domain rel)
               (fun joined => Ok (Utils.path_to_uri joined))
    /\ (domain = PyStr "https://cdn.example.com" -> prefix = "/flaskstore" ->
        destination self = Some "avatars" -> filename = "x.png" ->
        LocalStore.absolute_url c self filename
        = Ok "https://cdn.example.com/flaskstore/avatars/x.png").
Proof.
  intros Hd Hp. eexists. split; [exact (relative_url_eq _ _ _ _ Hp)|].
  split; [reflexivity|].
  split; [exact (absolute_url_eq _ _ _ _ _ Hd Hp)|].
  intros -> -> Hdest ->.
  rewrite (absolute_url_eq _ _ _ _ _ Hd Hp).
  unfold url_parts. rewrite Hdest. reflexivity.
Qed.

Lemma absolute_url_resolves_witness :
  LocalStore.absolute_url
    (<["STORE_DOMAIN" := PyStr "https://cdn.example.com"]>
       (<["STORE_URL_PREFIX" := PyStr "/flaskstore"]> ∅))
    {| store_path := "/srv/store"; destination := Some "avatars" |} "x.png"
  = Ok "https://cdn.example.com/flaskstore/avatars/x.png".
Proof.
  destruct (absolute_url_resolves
              (<["STORE_DOMAIN" := PyStr "https://cdn.example.com"]>
                 (<["STORE_URL_PREFIX" := PyStr "/flaskstore"]> ∅))
              {| store_path := "/srv/store"; destination := Some "avatars" |}
              "x.png" (PyStr "https://cdn.example.com") "/flaskstore")
    as (rel & _ & _ & _ & H); [reflexivity|reflexivity|].
  apply H; reflexivity.
Defined.

(** ** Encoding twice *)

Section Encoding.
Import PyStr LocalStore.












End Encoding.




(** ** [save] *)

Section Save.
Context {W : Type}.
Variable os : OS W.
Variable safe_filename : string -> string.
Variable self : Store.
Variable file : FileStorage W.

Let name := safe_filename (filename file).
Let path := LocalStore.join [store_path self; name].
Let directory := PosixPath.dirname path.

(** [save] is its directory step followed by the rest. *)
Lemma save_phases s :
  LocalStore.save os safe_filename self file s
  = bind (ensure_directory os directory)
         (fun _ => write_upload os directory path name file) s.
Proof.
  unfold LocalStore.save, ensure_directory, write_upload, bind, query.
  fold name. fold path. fold directory.
  destruct (negb (os_path_exists os directory (world s))); [|reflexivity].
  destruct (try_except _ _ _) as [[[]|e] s1]; reflexivity.
Qed.

Lemma ensure_directory_present s :
  os_path_exists os directory (world s) = true ->
  ensure_directory os directory s = (Ok tt, s).
Proof. intros H. unfold ensure_directory, bind, query. now rewrite H. Qed.

Lemma ensure_directory_absent s :
  os_path_exists os directory (world s) = false ->
  ensure_directory os directory s
  = let '(r, w) := os_makedirs os directory (world s) in
    let s1 := {| world := w; calls := calls s ++ [CallMakedirs directory] |} in
    match r with
    | Ok _ => (Ok tt, s1)
    | Raise e => LocalStore.makedirs_handler e s1
    end.
Proof.
  intros H. unfold ensure_directory, bind, query, try_except, perform.
  rewrite H. simpl. destruct (os_makedirs os directory (world s)) as [[[]|e] w];
    reflexivity.
Qed.

(** The directory step writes nothing and closes nothing. *)
Lemma ensure_directory_calls s r s1 :
  ensure_directory os directory s = (r, s1) ->
  calls s1 = calls s \/ calls s1 = calls s ++ [CallMakedirs directory].
Proof.
  destruct (os_path_exists os directory (world s)) eqn:E.
  - rewrite ensure_directory_present by assumption. intros [= _ <-]. now left.
  - rewrite ensure_directory_absent by assumption.
    destruct (os_makedirs os directory (world s)) as [[[]|e] w].
    + intros [= _ <-]. now right.
    + unfold LocalStore.makedirs_handler.
      destruct e as [n| | | | |]; try destruct (negb (Z.eqb n EEXIST));
        unfold raise, ret; intros [= _ <-]; now right.
Qed.

Lemma write_upload_not_dir s :
  os_path_isdir os directory (world s) = false ->
  write_upload os directory path name file s
  = (Raise (IOError (directory +:+ " is not a directory")), s).
Proof. intros H. unfold write_upload, bind, query. now rewrite H. Qed.

Lemma write_upload_dir s :
  os_path_isdir os directory (world s) = true ->
  write_upload os directory path name file s
  = let '(r, w1) := file_save file path (world s) in
    let s1 := {| world := w1; calls := calls s ++ [CallSave path] |} in
    match r with
    | Raise e => (Raise e, s1)
    | Ok _ =>
        let '(r2, w2) := file_close file w1 in
        let s2 := {| world := w2; calls := calls s1 ++ [CallClose] |} in
        match r2 with
        | Raise e => (Raise e, s2)
        | Ok _ => (Ok name, s2)
        end
    end.
Proof.
  intros H. unfold write_upload, bind, query, perform, ret. rewrite H. simpl.
  destruct (file_save file path (world s)) as [[[]|e] w1]; [|reflexivity].
  simpl. destruct (file_close file w1) as [[[]|e] w2]; reflexivity.
Qed.

End Save.

(** C5.  When the parent directory does not exist, [save] calls
    [os.makedirs] on it.  If that raises [OSError] with [EEXIST], the error is
    swallowed and [save] goes on with the directory check and the write, as
    it does when the creation succeeds; any other exception is raised to the
    caller at once. *)
Theorem save_directory_creation {W : Type} (os : OS W)
    (safe_filename : string -> string) (self : Store) (file : FileStorage W)
    (s : state W) (r : result unit) (w : W) :
  let name := safe_filename (filename file) in
  let path := LocalStore.join [store_path self; name] in
  let directory := PosixPath.dirname path in
  let s1 := {| world := w; calls := calls s ++ [CallMakedirs directory] |} in
  os_path_exists os directory (world s) = false ->
  os_makedirs os directory (world s) = (r, w) ->
  (r = Raise (OSError EEXIST) ->
   LocalStore.save os safe_filename self file s
   = write_upload os directory path name file s1)
  /\ (forall e, r = Raise e -> e <> OSError EEXIST ->
      LocalStore.save os safe_filename self file s = (Raise e, s1))
  /\ (r = Ok tt ->
      LocalStore.save os safe_filename self file s
      = write_upload os directory path name file s1).
Proof.
  intros name path directory s1 Hex Hmk.
  pose proof (ensure_directory_absent os safe_filename self file s Hex) as He.
  fold name path directory in He. rewrite Hmk in He. fold s1 in He.
  rewrite save_phases. fold name path directory. unfold bind.
  rewrite He. repeat split.
  - intros ->. reflexivity.
  - intros e -> Ne. unfold LocalStore.makedirs_handler.
    destruct e as [n| | | | |]; try reflexivity.
    destruct (Z.eqb n EEXIST) eqn:E; [|reflexivity].
    apply Z.eqb_eq in E. congruence.
  - intros ->. reflexivity.
Qed.

Lemma save_directory_creation_witness :
  LocalStore.save Sim.os Sim.basename_sanitiser site (Sim.upload "a.png" "data")
    {| world := {| Sim.fs := disk; Sim.racer := Some "/srv/store";
                   Sim.readonly := false |};
       calls := [] |}
  = write_upload Sim.os "/srv/store" "/srv/store/a.png" "a.png"
      (Sim.upload "a.png" "data")
      {| world := {| Sim.fs := <["/srv/store" := Sim.Dir]> disk;
                     Sim.racer := None; Sim.readonly := false |};
         calls := [CallMakedirs "/srv/store"] |}.
Proof.
  refine (proj1 (save_directory_creation Sim.os Sim.basename_sanitiser site
                   (Sim.upload "a.png" "data")
                   {| world := {| Sim.fs := disk; Sim.racer := Some "/srv/store";
                                  Sim.readonly := false |};
                      calls := [] |}
                   (Raise (OSError EEXIST))
                   {| Sim.fs := <["/srv/store" := Sim.Dir]> disk;
                      Sim.racer := None; Sim.readonly := false |} _ _) _);
    reflexivity.
Defined.

(** C6.  If the parent path is not a directory once the directory step is
    over, [save] raises [IOError] with the message [<path> is not a
    directory]; the upload is never asked to write, and the world is the one
    the directory step left. *)
Theorem save_not_a_directory {W : Type} (os : OS W)
    (safe_filename : string -> string) (self : Store) (file : FileStorage W)
    (s s1 : state W) :
  let name := safe_filename (filename file) in
  let path := LocalStore.join [store_path self; name] in
  let directory := PosixPath.dirname path in
  ensure_directory os directory s = (Ok tt, s1) ->
  os_path_isdir os directory (world s1) = false ->
  LocalStore.save os safe_filename self file s
  = (Raise (IOError (directory +:+ " is not a directory")), s1)
  /\ writes (calls s1) = writes (calls s)
  /\ closes (calls s1) = closes (calls s).
Proof.
  intros name path directory He Hd.
  rewrite save_phases. fold name path directory. unfold bind at 1. rewrite He.
  split; [now apply write_upload_not_dir|].
  destruct (ensure_directory_calls os safe_filename self file s _ _ He) as [-> | ->];
    [now split|].
  unfold writes, closes. rewrite List.filter_app, count_occ_app. simpl.
  rewrite List.length_app. simpl. split; lia.
Qed.

Lemma save_not_a_directory_witness :
  LocalStore.save Sim.os Sim.basename_sanitiser site (Sim.upload "a.png" "data")
    (Sim.start (<["/srv/store" := Sim.File "not a directory"]> disk))
  = (Raise (IOError "/srv/store is not a directory"),
     Sim.start (<["/srv/store" := Sim.File "not a directory"]> disk)).
Proof.
  refine (proj1 (save_not_a_directory Sim.os Sim.basename_sanitiser site
                   (Sim.upload "a.png" "data")
                   (Sim.start (<["/srv/store" := Sim.File "not a directory"]> disk))
                   (Sim.start (<["/srv/store" := Sim.File "not a directory"]> disk))
                   _ _));
    reflexivity.
Defined.

(** ** The write and the close *)

Section Write.
Context {W : Type}.
Variable os : OS W.
Variable safe_filename : string -> string.
Variable self : Store.
Variable file : FileStorage W.

Let name := safe_filename (filename file).
Let path := LocalStore.join [store_path self; name].
Let directory := PosixPath.dirname path.

(** A run of [save] that returns went through the directory step, found a
    directory, wrote and closed. *)
Lemma save_ok_inv s f s' :
  LocalStore.save os safe_filename self file s = (Ok f, s') ->
  exists s1 w1 w2,
    ensure_directory os directory s = (Ok tt, s1)
    /\ os_path_isdir os directory (world s1) = true
    /\ file_save file path (world s1) = (Ok tt, w1)
    /\ file_close file w1 = (Ok tt, w2)
    /\ s' = {| world := w2; calls := calls s1 ++ [CallSave path; CallClose] |}
    /\ f = name.
Proof.
  rewrite save_phases. fold name path directory. unfold bind at 1.
  destruct (ensure_directory os directory s) as [[[]|e] s1] eqn:He; [|discriminate].
  destruct (os_path_isdir os directory (world s1)) eqn:Hd.
  - pose proof (write_upload_dir os safe_filename self file s1 Hd) as Hw.
    fold name path directory in Hw. rewrite Hw. clear Hw.
    destruct (file_save file path (world s1)) as [[[]|e] w1] eqn:Hs; [|discriminate].
    destruct (file_close file w1) as [[[]|e] w2] eqn:Hc; [|discriminate].
    intros [= <- <-]. exists s1, w1, w2. simpl. rewrite <- app_assoc. auto 10.
  - pose proof (write_upload_not_dir os safe_filename self file s1 Hd) as Hw.
    fold name path directory in Hw. rewrite Hw. discriminate.
Qed.

(** A failed write ends [save] before the close. *)
Lemma save_write_failure s s1 e w1 :
  ensure_directory os directory s = (Ok tt, s1) ->
  os_path_isdir os directory (world s1) = true ->
  file_save file path (world s1) = (Raise e, w1) ->
  LocalStore.save os safe_filename self file s
  = (Raise e, {| world := w1; calls := calls s1 ++ [CallSave path] |})
  /\ closes (calls s1 ++ [CallSave path]) = closes (calls s).
Proof.
  intros He Hd Hs. rewrite save_phases. fold name path directory.
  unfold bind at 1. rewrite He.
  pose proof (write_upload_dir os safe_filename self file s1 Hd) as Hw.
  fold name path directory in Hw. rewrite Hw, Hs. split; [reflexivity|].
  unfold closes. rewrite count_occ_app. simpl.
  destruct (ensure_directory_calls os safe_filename self file s _ _ He) as [-> | ->].
  - lia.
  - rewrite count_occ_app. simpl. lia.
Qed.

Lemma contains_startswith c x : PyStr.contains c x = false -> PyStr.startswith c x = false.
Proof. destruct x as [|a x]; [reflexivity|]. simpl. now intros [H _]%orb_false_iff. Qed.

End Write.

(** C1 on the code.  When the write raises, [save] ends there: the error
    reaches the caller and the upload has not been closed.  A write that
    succeeds is followed by one close. *)
Theorem save_failed_write_skips_close :
  let run := LocalStore.save Sim.os Sim.basename_sanitiser site in
  let failed := run (Sim.failing_upload "a.png") (Sim.start disk) in
  let done := run (Sim.upload "a.png" "data") (Sim.start disk) in
  fst failed = Raise (IOError "No space left on device")
  /\ calls (snd failed) = [CallMakedirs "/srv/store"; CallSave "/srv/store/a.png"]
  /\ closes (calls (snd failed)) = 0
  /\ fst done = Ok "a.png"
  /\ closes (calls (snd done)) = 1.
Proof. repeat split; reflexivity. Qed.

(** C8.  A [save] that returns [f] returns the sanitised declared filename,
    which is relative when the sanitiser lets no separator through; the
    upload was asked to write to [absolute_path(f)] and was then closed, and
    the world [save] returns in is the one that close left.  [exists] of any
    filename, in any world, is [os.path.exists] of [absolute_path] of that
    filename; so when the upload's write makes its path exist and its close
    keeps it, [exists(f)] is true right after the [save]. *)
Theorem save_then_exists {W : Type} (os : OS W)
    (safe_filename : string -> string) (self : Store) (file : FileStorage W)
    (s s' : state W) (f : string) :
  (forall n, PyStr.contains PyStr.sep (safe_filename n) = false) ->
  (forall p w w1, file_save file p w = (Ok tt, w1) ->
                  os_path_exists os p w1 = true) ->
  (forall p w1 w2, file_close file w1 = (Ok tt, w2) ->
                   os_path_exists os p w1 = true ->
                   os_path_exists os p w2 = true) ->
  LocalStore.save os safe_filename self file s = (Ok f, s') ->
  f = safe_filename (filename file)
  /\ PyStr.startswith PyStr.sep f = false
  /\ (exists s1 w1,
        file_save file (LocalStore.absolute_path self f) (world s1) = (Ok tt, w1)
        /\ file_close file w1 = (Ok tt, world s')
        /\ calls s' = calls s1 ++ [CallSave (LocalStore.absolute_path self f); CallClose])
  /\ (forall g w, LocalStore.exists_ os self g w
                  = os_path_exists os (LocalStore.absolute_path self g) w)
  /\ LocalStore.exists_ os self f (world s') = true.
Proof.
  intros Hsafe Hwrite Hclose Hsave.
  destruct (save_ok_inv os safe_filename self file s f s' Hsave)
    as (s1 & w1 & w2 & He & Hd & Hs & Hc & -> & ->).
  split; [reflexivity|].
  split; [apply contains_startswith, Hsafe|].
  split; [exists s1, w1; simpl; auto|].
  split; [reflexivity|].
  unfold LocalStore.exists_. simpl.
  exact (Hclose _ _ _ Hc (Hwrite _ _ _ Hs)).
Qed.

(** ** The simulated world meets the assumptions *)

Section SimFacts.
Import PyStr.

Lemma split_no_sep c s x : In x (split c s) -> contains c x = false.
Proof.
  revert x. induction s as [|a s IH]; intros x.
  - intros [<-|[]]. reflexivity.
  - rewrite split_cons. destruct (Ascii.eqb a c) eqn:E.
    + intros [<-|H]; [reflexivity|now apply IH].
    + pose proof (split_nonempty c s) as N.
      destruct (split c s) as [|w ws]; [now destruct N|].
      intros [<-|H].
      * simpl. rewrite E. apply IH. now left.
      * apply IH. now right.
Qed.

Lemma last_in (l : list string) d : l <> [] -> In (List.last l d) l.
Proof.
  induction l as [|x l IH]; [congruence|]. intros _.
  destruct l as [|y l]; [now left|].
  right. apply IH. discriminate.
Qed.

Lemma basename_sanitiser_no_sep n : contains sep (Sim.basename_sanitiser n) = false.
Proof.
  unfold Sim.basename_sanitiser.
  set (b := List.last (split sep n) "").
  destruct (String.eqb b "" || String.eqb b "." || String.eqb b ".."); [reflexivity|].
  apply (split_no_sep sep n). apply last_in, split_nonempty.
Qed.

Lemma upload_written name data p w w1 :
  file_save (Sim.upload name data) p w = (Ok tt, w1) ->
  os_path_exists Sim.os p w1 = true.
Proof.
  simpl.
  destruct (bool_decide (Sim.fs w !! PosixPath.dirname p = Some Sim.Dir)
            && negb (bool_decide (Sim.fs w !! p = Some Sim.Dir))); [|discriminate].
  intros [= <-]. simpl. apply bool_decide_eq_true.
  rewrite lookup_insert_eq. eauto.
Qed.

Lemma upload_close_keeps name data (p : string) w1 w2 :
  file_close (Sim.upload name data) w1 = (Ok tt, w2) ->
  os_path_exists Sim.os p w1 = true ->
  os_path_exists Sim.os p w2 = true.
Proof. simpl. now intros [= <-]. Qed.

End SimFacts.

Lemma save_then_exists_witness :
  LocalStore.exists_ Sim.os site "a.png"
    (world (snd (LocalStore.save Sim.os Sim.basename_sanitiser site
                   (Sim.upload "../a.png" "data") (Sim.start disk)))) = true.
Proof.
  refine (proj2 (proj2 (proj2 (proj2
            (save_then_exists Sim.os Sim.basename_sanitiser site
               (Sim.upload "../a.png" "data") (Sim.start disk)
               (snd (LocalStore.save Sim.os Sim.basename_sanitiser site
                       (Sim.upload "../a.png" "data") (Sim.start disk)))
               "a.png" basename_sanitiser_no_sep
               (upload_written "../a.png" "data")
               (upload_close_keeps "../a.png" "data") _))))).
  reflexivity.
Defined.

(** * Further properties of the module *)

(** ** More on [join] *)

Section JoinMore.
Import PyStr LocalStore.

Lemma join2_empty_l p : PosixPath.join2 "" p = p.
Proof. unfold PosixPath.join2. now destruct (startswith sep p). Qed.

Lemma rstrip_all_chars c p : all_chars c p = true -> rstrip c p = "".
Proof.
  induction p as [|a p IH]; [reflexivity|].
  simpl all_chars. intros [Ha Hp]%andb_true_iff.
  rewrite rstrip_cons, (IH Hp). now rewrite Ha.
Qed.

Lemma lstrip_all_chars c p : all_chars c p = true -> lstrip c p = "".
Proof.
  induction p as [|a p IH]; [reflexivity|].
  simpl. intros [Ha Hp]%andb_true_iff. rewrite Ha. now apply IH.
Qed.

(** Stripping an appended string keeps the stripped front as a prefix. *)
Lemma rstrip_append_ex c s t : exists t', rstrip c (s +:+ t) = rstrip c s +:+ t'.
Proof.
  induction s as [|a s [t' IH]].
  - now exists (rstrip c t).
  - rewrite append_cons, !rstrip_cons, IH.
    destruct (rstrip c s) as [|b r].
    + rewrite append_nil_l. destruct t' as [|x t'].
      * exists "". now rewrite append_nil_r.
      * destruct (Ascii.eqb a c); [now exists (String a (String x t'))|].
        now exists (String x t').
    + exists t'. now rewrite !append_cons.
Qed.

Lemma rstrip_snoc c s : rstrip c (s +:+ String c "") = rstrip c s.
Proof.
  induction s as [|a s IH].
  - rewrite append_nil_l. simpl. now rewrite Ascii.eqb_refl.
  - now rewrite append_cons, !rstrip_cons, IH.
Qed.

Lemma fold_join2_prefix rest p :
  exists t, fold_left PosixPath.join2 (map (lstrip sep) rest) p = p +:+ t.
Proof.
  revert p. induction rest as [|x rest IH]; intros p.
  - exists "". now rewrite append_nil_r.
  - simpl. destruct (IH (PosixPath.join2 p (lstrip sep x))) as [t ->].
    unfold PosixPath.join2. rewrite startswith_lstrip.
    destruct (String.eqb p "" || endswith sep p);
      rewrite !append_assoc; eauto.
Qed.

Lemma join2_empty_r x :
  rstrip sep (PosixPath.join2 x "") = rstrip sep x.
Proof.
  unfold PosixPath.join2. simpl startswith. cbv iota.
  destruct (String.eqb x "" || endswith sep x).
  - now rewrite append_nil_r.
  - rewrite append_nil_r. apply rstrip_snoc.
Qed.

End JoinMore.

(** X1.  Without a destination ([None] or the empty string),
    [relative_path(filename)] is the filename with its trailing separators
    stripped: the filename is then the first segment of the join, so its
    leading separators stay. *)
Theorem relative_path_no_destination (self : Store) (filename : string) :
  truthy (destination self) = false ->
  LocalStore.relative_path self filename = PyStr.rstrip PyStr.sep filename.
Proof.
  intros H. unfold LocalStore.relative_path. rewrite H. simpl app.
  unfold LocalStore.join. simpl. now rewrite join2_empty_l.
Qed.

Lemma relative_path_no_destination_witness :
  LocalStore.relative_path {| store_path := "/srv/store"; destination := Some "" |}
    "/etc/passwd//" = "/etc/passwd".
Proof.
  exact (relative_path_no_destination
           {| store_path := "/srv/store"; destination := Some "" |}
           "/etc/passwd//" eq_refl).
Defined.

(** X2.  The result of [join] always begins with its first segment, less
    that segment's trailing separators: no later segment replaces what came
    before it, as an absolute argument of [os.path.join] would. *)
Theorem join_keeps_first (first : string) (rest : list string) :
  String.prefix (PyStr.rstrip PyStr.sep first) (LocalStore.join (first :: rest)) = true
  /\ PosixPath.join2 "a" "/b" = "/b".
Proof.
  split; [|reflexivity].
  rewrite join_cons, join2_empty_l.
  destruct (fold_join2_prefix rest first) as [t ->].
  destruct (rstrip_append_ex PyStr.sep first t) as [t' ->].
  apply prefix_append.
Qed.

(** X3.  A single segment is joined to itself without its trailing
    separators; a segment made of separators only, such as the root, is joined
    to the empty string. *)
Theorem join_single (p : string) :
  LocalStore.join [p] = PyStr.rstrip PyStr.sep p
  /\ (PyStr.all_chars PyStr.sep p = true -> LocalStore.join [p] = "").
Proof.
  assert (E : LocalStore.join [p] = PyStr.rstrip PyStr.sep p).
  { unfold LocalStore.join. simpl. now rewrite join2_empty_l. }
  split; [exact E|]. intros H. rewrite E. now apply rstrip_all_chars.
Qed.

Lemma join_single_witness : LocalStore.join ["//"] = "".
Proof. exact (proj2 (join_single "//") eq_refl). Defined.

(** X4.  A last segment that is empty or made of separators only adds
    nothing: the join is that of the segments before it.  So
    [absolute_path("")] is the join of the store path alone. *)
Theorem join_trailing_empty (first : string) (rest : list string) (s : string) :
  PyStr.all_chars PyStr.sep s = true ->
  LocalStore.join (first :: rest ++ [s]) = LocalStore.join (first :: rest).
Proof.
  intros H. rewrite !join_cons, map_app, fold_left_app. simpl.
  rewrite (lstrip_all_chars _ _ H). apply join2_empty_r.
Qed.

Lemma join_trailing_empty_witness :
  LocalStore.absolute_path site "" = LocalStore.join ["/srv/store"].
Proof. exact (join_trailing_empty "/srv/store" [] "" eq_refl). Defined.

(** ** [absolute_path], [relative_path] and the target of [save] *)

Section PathsMore.
Import PyStr LocalStore.

Lemma lstrip_rstrip_comm c s : lstrip c (rstrip c s) = rstrip c (lstrip c s).
Proof.
  induction s as [|a s IH]; [reflexivity|].
  rewrite rstrip_cons. simpl lstrip at 2. destruct (Ascii.eqb a c) eqn:E.
  - rewrite <- IH. destruct (rstrip c s) as [|b r]; [reflexivity|].
    simpl. now rewrite E.
  - rewrite rstrip_cons. destruct (rstrip c s); simpl; now rewrite E.
Qed.

Lemma rstrip_append_rstrip c x g :
  rstrip c (x +:+ rstrip c g) = rstrip c (x +:+ g).
Proof.
  induction x as [|a x IH].
  - rewrite !append_nil_l. apply rstrip_idem.
  - now rewrite !append_cons, !rstrip_cons, IH.
Qed.

Lemma join2_rstrip x f :
  rstrip sep (PosixPath.join2 x (lstrip sep (rstrip sep f)))
  = rstrip sep (PosixPath.join2 x (lstrip sep f)).
Proof.
  unfold PosixPath.join2. rewrite !startswith_lstrip, lstrip_rstrip_comm.
  destruct (String.eqb x "" || endswith sep x).
  - apply rstrip_append_rstrip.
  - rewrite <- !append_assoc. apply rstrip_append_rstrip.
Qed.

Lemma endswith_append c s t :
  t <> "" -> endswith c (s +:+ t) = endswith c t.
Proof.
  intros N. induction s as [|a s IH]; [reflexivity|].
  rewrite append_cons. destruct (s +:+ t) as [|b r] eqn:E.
  - destruct s; [now destruct N|discriminate].
  - now rewrite endswith_cons2.
Qed.

Lemma contains_endswith c s : contains c s = false -> endswith c s = false.
Proof.
  induction s as [|a s IH]; [reflexivity|].
  simpl contains. intros [Ha Hs]%orb_false_iff.
  destruct s as [|b r]; [exact Ha|].
  rewrite endswith_cons2. now apply IH.
Qed.

Lemma contains_lstrip c s : contains c s = false -> lstrip c s = s.
Proof.
  destruct s as [|a s]; [reflexivity|].
  simpl. now intros [-> _]%orb_false_iff.
Qed.

Lemma rfind_succ_none n : contains sep n = false -> PosixPath.rfind_succ n = 0.
Proof.
  induction n as [|a n IH]; [reflexivity|].
  simpl contains. intros [Ha Hn]%orb_false_iff.
  simpl. now rewrite (IH Hn), Ha.
Qed.

Lemma rfind_succ_append s n :
  contains sep n = false ->
  PosixPath.rfind_succ (s +:+ String sep n) = S (String.length s).
Proof.
  intros H. induction s as [|a s IH].
  - rewrite append_nil_l. simpl. now rewrite (rfind_succ_none n H).
  - rewrite append_cons. simpl. now rewrite IH.
Qed.

Lemma substring_front s a n :
  substring 0 (S (String.length s)) (s +:+ String a n) = s +:+ String a "".
Proof.
  induction s as [|x s IH].
  - rewrite !append_nil_l. simpl. now destruct n.
  - rewrite !append_cons. simpl. f_equal. exact IH.
Qed.

Lemma all_chars_snoc c s :
  s <> "" -> endswith c s = false -> all_chars c (s +:+ String c "") = false.
Proof.
  intros N E. induction s as [|a s IH]; [now destruct N|].
  rewrite append_cons. simpl all_chars. destruct s as [|b r].
  - simpl in E. now rewrite E.
  - rewrite endswith_cons2 in E. rewrite IH by (discriminate || assumption).
    apply andb_false_r.
Qed.

End PathsMore.

(** X5.  Without a destination, the absolute path of a filename is the
    store path joined with the relative path of that filename. *)
Theorem absolute_path_of_relative_path (self : Store) (filename : string) :
  truthy (destination self) = false ->
  LocalStore.absolute_path self filename
  = LocalStore.join [store_path self; LocalStore.relative_path self filename].
Proof.
  intros H. unfold LocalStore.relative_path. rewrite H. simpl app.
  unfold LocalStore.absolute_path, LocalStore.join at 1 2. simpl.
  rewrite !join2_empty_l. symmetry.
  change (LocalStore.join [filename])
    with (PyStr.rstrip PyStr.sep (PosixPath.join2 "" filename)).
  rewrite join2_empty_l. apply join2_rstrip.
Qed.

Lemma absolute_path_of_relative_path_witness :
  LocalStore.absolute_path site "//a/b.png/"
  = LocalStore.join ["/srv/store"; LocalStore.relative_path site "//a/b.png/"].
Proof. exact (absolute_path_of_relative_path site "//a/b.png/" eq_refl). Defined.

(** X6.  For a store path that is not empty and does not end in a
    separator, and a name that is not empty and has no separator (what a
    sanitised filename is), the path [save] writes to is the store path, a
    separator and the name, and the directory [save] checks and creates is
    the store path itself. *)
Theorem save_target_in_store_path (self : Store) (name : string) :
  store_path self <> "" ->
  PyStr.endswith PyStr.sep (store_path self) = false ->
  name <> "" ->
  PyStr.contains PyStr.sep name = false ->
  LocalStore.join [store_path self; name] = store_path self +:+ "/" +:+ name
  /\ PosixPath.dirname (LocalStore.join [store_path self; name]) = store_path self.
Proof.
  intros Ns Es Nn Cn.
  assert (J : LocalStore.join [store_path self; name]
              = store_path self +:+ "/" +:+ name).
  { unfold LocalStore.join. simpl. rewrite join2_empty_l.
    rewrite (contains_lstrip _ _ Cn). unfold PosixPath.join2.
    rewrite (contains_startswith _ _ Cn), Es.
    apply String.eqb_neq in Ns. rewrite Ns. simpl orb. cbv iota.
    apply rstrip_id. rewrite endswith_append by (destruct name; discriminate).
    change ("/" +:+ name) with (String PyStr.sep name).
    destruct name as [|a n]; [now destruct Nn|].
    rewrite endswith_cons2. now apply contains_endswith. }
  split; [exact J|]. rewrite J. unfold PosixPath.dirname.
  change ("/" +:+ name) with (String PyStr.sep name).
  rewrite (rfind_succ_append _ _ Cn), substring_front.
  rewrite (all_chars_snoc _ _ Ns Es).
  assert (Hne : String.eqb (store_path self +:+ String PyStr.sep "") "" = false)
    by (destruct (store_path self); reflexivity).
  rewrite Hne. simpl. rewrite rstrip_snoc. now apply rstrip_id.
Qed.

Lemma save_target_in_store_path_witness :
  PosixPath.dirname (LocalStore.join ["/srv/store"; "a.png"]) = "/srv/store".
Proof.
  refine (proj2 (save_target_in_store_path site "a.png" _ _ _ _));
    (discriminate || reflexivity).
Defined.

(** ** More on [save] *)

Section SaveMore.
Context {W : Type}.
Variable os : OS W.

Lemma write_upload_trace d p n (file : FileStorage W) s r s' :
  write_upload os d p n file s = (r, s') ->
  calls s' = calls s
  \/ calls s' = calls s ++ [CallSave p]
  \/ calls s' = calls s ++ [CallSave p; CallClose].
Proof.
  unfold write_upload, bind, query, perform, raise, ret. simpl.
  destruct (os_path_isdir os d (world s)); simpl.
  - destruct (file_save file p (world s)) as [[[]|e] w1]; simpl.
    + destruct (file_close file w1) as [[[]|e] w2]; intros [= _ <-]; simpl;
        rewrite <- app_assoc; auto.
    + intros [= _ <-]. auto.
  - intros [= _ <-]. auto.
Qed.

Lemma mkdirs_app l l' : mkdirs (l ++ l') = mkdirs l + mkdirs l'.
Proof. unfold mkdirs. now rewrite List.filter_app, List.length_app. Qed.

Lemma writes_app l l' : writes (l ++ l') = writes l + writes l'.
Proof. unfold writes. now rewrite List.filter_app, List.length_app. Qed.

Lemma closes_app l l' : closes (l ++ l') = closes l + closes l'.
Proof. unfold closes. apply count_occ_app. Qed.

End SaveMore.

(** X7.  A [save] that returns has asked the upload to write once, to
    [absolute_path] of the name it returns, and has closed it once, as the
    last two calls it made; it has asked for a directory at most once. *)
Theorem save_success_calls {W : Type} (os : OS W)
    (safe_filename : string -> string) (self : Store) (file : FileStorage W)
    (s s' : state W) (f : string) :
  LocalStore.save os safe_filename self file s = (Ok f, s') ->
  (exists pre, calls s' = pre ++ [CallSave (LocalStore.absolute_path self f); CallClose])
  /\ writes (calls s') = S (writes (calls s))
  /\ closes (calls s') = S (closes (calls s))
  /\ mkdirs (calls s') <= S (mkdirs (calls s)).
Proof.
  intros Hs.
  destruct (save_ok_inv os safe_filename self file s f s' Hs)
    as (s1 & w1 & w2 & He & _ & _ & _ & -> & ->).
  simpl. split; [eauto|].
  rewrite writes_app, closes_app, mkdirs_app.
  destruct (ensure_directory_calls os safe_filename self file s _ _ He) as [-> | ->].
  - cbn. lia.
  - rewrite writes_app, closes_app, mkdirs_app. cbn. lia.
Qed.

Lemma save_success_calls_witness :
  writes (calls (snd (LocalStore.save Sim.os Sim.basename_sanitiser site
                        (Sim.upload "a.png" "data") (Sim.start disk))))
  = 1.
Proof.
  refine (proj1 (proj2
            (save_success_calls Sim.os Sim.basename_sanitiser site
               (Sim.upload "a.png" "data") (Sim.start disk)
               (snd (LocalStore.save Sim.os Sim.basename_sanitiser site
                       (Sim.upload "a.png" "data") (Sim.start disk)))
               "a.png" _))).
  reflexivity.
Defined.

(** X8.  When the parent directory exists, [save] does not call
    [os.makedirs]: it goes straight to the directory check and the write. *)
Theorem save_existing_directory {W : Type} (os : OS W)
    (safe_filename : string -> string) (self : Store) (file : FileStorage W)
    (s s' : state W) (r : result string) :
  let name := safe_filename (filename file) in
  let path := LocalStore.join [store_path self; name] in
  let directory := PosixPath.dirname path in
  os_path_exists os directory (world s) = true ->
  LocalStore.save os safe_filename self file s = (r, s') ->
  LocalStore.save os safe_filename self file s
  = write_upload os directory path name file s
  /\ mkdirs (calls s') = mkdirs (calls s).
Proof.
  intros name path directory Hex Hs.
  assert (E : LocalStore.save os safe_filename self file s
              = write_upload os directory path name file s).
  { rewrite save_phases. fold name path directory. unfold bind.
    pose proof (ensure_directory_present os safe_filename self file s Hex) as Hp.
    fold name path directory in Hp. now rewrite Hp. }
  split; [exact E|]. rewrite E in Hs.
  destruct (write_upload_trace os _ _ _ _ _ _ _ Hs) as [-> | [-> | ->]];
    [reflexivity| |]; rewrite mkdirs_app; cbn; lia.
Qed.

Lemma save_existing_directory_witness :
  mkdirs (calls (snd (LocalStore.save Sim.os Sim.basename_sanitiser site
                        (Sim.upload "a.png" "data")
                        (Sim.start (<["/srv/store" := Sim.Dir]> disk)))))
  = mkdirs [].
Proof.
  refine (proj2
            (save_existing_directory Sim.os Sim.basename_sanitiser site
               (Sim.upload "a.png" "data")
               (Sim.start (<["/srv/store" := Sim.Dir]> disk))
               (snd (LocalStore.save Sim.os Sim.basename_sanitiser site
                       (Sim.upload "a.png" "data")
                       (Sim.start (<["/srv/store" := Sim.Dir]> disk))))
               (Ok "a.png") _ _));
    reflexivity.
Defined.

(** X9.  A [save] that loses the race for the directory still succeeds: when
    the directory is reported missing, [os.makedirs] raises [EEXIST], the path
    is then a directory and the write and the close go through, [save]
    returns the sanitised name after exactly these three calls. *)
Theorem save_after_lost_race {W : Type} (os : OS W)
    (safe_filename : string -> string) (self : Store) (file : FileStorage W)
    (s : state W) (w w1 w2 : W) :
  let name := safe_filename (filename file) in
  let path := LocalStore.join [store_path self; name] in
  let directory := PosixPath.dirname path in
  os_path_exists os directory (world s) = false ->
  os_makedirs os directory (world s) = (Raise (OSError EEXIST), w) ->
  os_path_isdir os directory w = true ->
  file_save file path w = (Ok tt, w1) ->
  file_close file w1 = (Ok tt, w2) ->
  LocalStore.save os safe_filename self file s
  = (Ok name,
     {| world := w2;
        calls := calls s ++ [CallMakedirs directory; CallSave path; CallClose] |}).
Proof.
  intros name path directory Hex Hmk Hd Hsv Hc.
  rewrite save_phases. fold name path directory. unfold bind.
  pose proof (ensure_directory_absent os safe_filename self file s Hex) as He.
  fold name path directory in He. rewrite Hmk in He. rewrite He. simpl.
  pose proof (write_upload_dir os safe_filename self file
                {| world := w; calls := calls s ++ [CallMakedirs directory] |} Hd) as Hw.
  fold name path directory in Hw. simpl in Hw. rewrite Hsv, Hc in Hw.
  rewrite Hw. simpl. now rewrite <- !app_assoc.
Qed.

Lemma save_after_lost_race_witness :
  fst (LocalStore.save Sim.os Sim.basename_sanitiser site (Sim.upload "a.png" "data")
         {| world := {| Sim.fs := disk; Sim.racer := Some "/srv/store";
                        Sim.readonly := false |};
            calls := [] |})
  = Ok "a.png".
Proof.
  rewrite (save_after_lost_race Sim.os Sim.basename_sanitiser site
             (Sim.upload "a.png" "data")
             {| world := {| Sim.fs := disk; Sim.racer := Some "/srv/store";
                            Sim.readonly := false |};
                calls := [] |}
             {| Sim.fs := <["/srv/store" := Sim.Dir]> disk;
                Sim.racer := None; Sim.readonly := false |}
             {| Sim.fs := <["/srv/store/a.png" := Sim.File "data"]>
                            (<["/srv/store" := Sim.Dir]> disk);
                Sim.racer := None; Sim.readonly := false |}
             {| Sim.fs := <["/srv/store/a.png" := Sim.File "data"]>
                            (<["/srv/store" := Sim.Dir]> disk);
                Sim.racer := None; Sim.readonly := false |});
    reflexivity.
Defined.

Section SaveErrors.
Context {W : Type}.


End SaveErrors.



(** ** More on the configuration and the URLs *)

Section ConfigMore.
Implicit Types (c : config) (k : string) (d : pyval).

Lemma dom_setdefault k d c : dom (setdefault k d c) = {[k]} ∪ dom c.
Proof.
  unfold setdefault. destruct (c !! k) as [v|] eqn:Hk.
  - assert (k ∈ dom c) by (apply elem_of_dom; eauto). set_solver.
  - apply dom_insert_L.
Qed.

Lemma relative_url_missing_prefix c self f :
  c !! "STORE_URL_PREFIX" = None ->
  LocalStore.relative_url c self f = Raise (KeyError "STORE_URL_PREFIX").
Proof. intros H. unfold LocalStore.relative_url, getitem. now rewrite H. Qed.

Lemma app_defaults_prefix_unset cwd c :
  c !! "STORE_URL_PREFIX" = None ->
  LocalStore.app_defaults cwd c !! "STORE_URL_PREFIX" = Some (PyStr "/flaskstore").
Proof.
  intros H. unfold LocalStore.app_defaults. apply setdefault_unset.
  now rewrite setdefault_other by discriminate.
Qed.

End ConfigMore.

(** X11.  A missing configuration key is a [KeyError]: [relative_url]
    needs [STORE_URL_PREFIX] and never looks at [STORE_DOMAIN];
    [absolute_url] reads [STORE_DOMAIN] first, so that is the key named when
    it is missing, and [STORE_URL_PREFIX] is named when only that is
    missing. *)
Theorem url_missing_keys (c : config) (self : Store) (filename : string) :
  (c !! "STORE_URL_PREFIX" = None ->
   LocalStore.relative_url c self filename = Raise (KeyError "STORE_URL_PREFIX"))
  /\ (forall d, LocalStore.relative_url (<["STORE_DOMAIN" := d]> c) self filename
                = LocalStore.relative_url c self filename)
  /\ (c !! "STORE_DOMAIN" = None ->
      LocalStore.absolute_url c self filename = Raise (KeyError "STORE_DOMAIN"))
  /\ (is_Some (c !! "STORE_DOMAIN") -> c !! "STORE_URL_PREFIX" = None ->
      LocalStore.absolute_url c self filename = Raise (KeyError "STORE_URL_PREFIX")).
Proof.
  split; [apply relative_url_missing_prefix|].
  split.
  { intros d. unfold LocalStore.relative_url, getitem.
    now rewrite lookup_insert_ne by discriminate. }
  split; [apply absolute_url_unset|].
  intros [d Hd] Hp. unfold LocalStore.absolute_url, getitem. rewrite Hd. simpl.
  rewrite (relative_url_missing_prefix c self filename Hp).
  now destruct (py_bool d).
Qed.

Lemma url_missing_keys_witness :
  LocalStore.absolute_url (<["STORE_DOMAIN" := PyStr "https://cdn.example.com"]> ∅)
    site "a.png" = Raise (KeyError "STORE_URL_PREFIX").
Proof.
  refine (proj2 (proj2 (proj2
            (url_missing_keys (<["STORE_DOMAIN" := PyStr "https://cdn.example.com"]> ∅)
               site "a.png"))) _ _).
  - exists (PyStr "https://cdn.example.com"). reflexivity.
  - reflexivity.
Defined.

(** X12.  After [app_defaults], [relative_url] never fails for a missing key,
    and on a configuration without a prefix it builds its URL under
    [/flaskstore]; [app_defaults] gives no default for [STORE_DOMAIN], so
    [absolute_url] still raises [KeyError] when the application has not set
    it. *)
Theorem app_defaults_then_urls (cwd : string) (c : config) (self : Store)
    (filename : string) :
  (forall key, LocalStore.relative_url (LocalStore.app_defaults cwd c) self filename
               <> Raise (KeyError key))
  /\ (c !! "STORE_URL_PREFIX" = None ->
      LocalStore.relative_url (LocalStore.app_defaults cwd c) self filename
      = Ok (Utils.path_to_uri
              (LocalStore.url_join (url_parts "/flaskstore" self filename))))
  /\ (c !! "STORE_DOMAIN" = None ->
      LocalStore.absolute_url (LocalStore.app_defaults cwd c) self filename
      = Raise (KeyError "STORE_DOMAIN")).
Proof.
  split.
  { intros key. unfold LocalStore.relative_url, getitem.
    destruct (setdefault_is_Some "STORE_URL_PREFIX" (PyStr "/flaskstore")
                (setdefault "STORE_PATH" (PyStr cwd) c)) as [v Hv].
    unfold LocalStore.app_defaults. rewrite Hv.
    destruct v as [|p]; simpl; discriminate. }
  split.
  { intros H. apply relative_url_eq. now apply app_defaults_prefix_unset. }
  intros H. apply absolute_url_unset. unfold LocalStore.app_defaults.
  now rewrite !setdefault_other by discriminate.
Qed.

Lemma app_defaults_then_urls_witness :
  LocalStore.relative_url (LocalStore.app_defaults "/home/app" ∅) site "a.png"
  = Ok "/flaskstore/a.png"
  /\ LocalStore.absolute_url (LocalStore.app_defaults "/home/app" ∅) site "a.png"
     = Raise (KeyError "STORE_DOMAIN").
Proof.
  destruct (app_defaults_then_urls "/home/app" ∅ site "a.png") as (_ & H1 & H2).
  split; [apply H1|apply H2]; reflexivity.
Defined.

(** X13.  The keys of the configuration after [app_defaults] are the keys
    before it together with [STORE_PATH] and [STORE_URL_PREFIX]: the step
    adds these two and removes none. *)
Theorem app_defaults_keys (cwd : string) (c : config) :
  dom (LocalStore.app_defaults cwd c)
  = {["STORE_PATH"]} ∪ {["STORE_URL_PREFIX"]} ∪ dom c.
Proof.
  unfold LocalStore.app_defaults. rewrite !dom_setdefault. set_solver.
Qed.

(** ** When the second encoding shows *)

Section EncodingMore.

Lemma string_length_append (a b : string) :
  String.length (a +:+ b) = String.length a + String.length b.
Proof.
  induction a as [|x a IH]; [reflexivity|].
  rewrite append_cons. simpl. now rewrite IH.
Qed.

Lemma has_unsafe_append (a b : string) :
  has_unsafe (a +:+ b) = has_unsafe a || has_unsafe b.
Proof.
  induction a as [|x a IH]; [reflexivity|].
  rewrite append_cons. simpl. now rewrite IH, orb_assoc.
Qed.

Lemma path_to_uri_cons a s :
  Utils.path_to_uri (String a s)
  = (if Utils.unsafe a then Utils.percent a else String a "") +:+ Utils.path_to_uri s.
Proof. reflexivity. Qed.

Lemma path_to_uri_safe s : has_unsafe s = false -> Utils.path_to_uri s = s.
Proof.
  induction s as [|a s IH]; [reflexivity|].
  simpl has_unsafe. intros [Ha Hs]%orb_false_iff.
  now rewrite path_to_uri_cons, Ha, (IH Hs).
Qed.

Lemma path_to_uri_length s :
  String.length s <= String.length (Utils.path_to_uri s)
  /\ (has_unsafe s = true -> String.length s < String.length (Utils.path_to_uri s)).
Proof.
  induction s as [|a s [IH1 IH2]]; [split; [reflexivity|discriminate]|].
  rewrite path_to_uri_cons, string_length_append. simpl has_unsafe.
  destruct (Utils.unsafe a); simpl; split; try lia.
  intros H. apply IH2 in H. lia.
Qed.

Lemma path_to_uri_keeps_unsafe s :
  has_unsafe s = true -> has_unsafe (Utils.path_to_uri s) = true.
Proof.
  induction s as [|a s IH]; [discriminate|].
  rewrite path_to_uri_cons, has_unsafe_append. simpl has_unsafe at 1.
  destruct (Utils.unsafe a) eqn:Ha; [reflexivity|].
  simpl. rewrite Ha. exact IH.
Qed.

End EncodingMore.

(** X14.  With [path_to_uri] the percent-encoder, and the domain empty or
    [None], [absolute_url] and [relative_url] agree on a filename exactly
    when the joined segments hold no character that the encoder escapes. *)
Theorem absolute_url_agrees_iff_safe (c : config) (self : Store)
    (filename : string) (domain : pyval) (prefix : string) :
  c !! "STORE_DOMAIN" = Some domain ->
  py_bool domain = false ->
  c !! "STORE_URL_PREFIX" = Some (PyStr prefix) ->
  LocalStore.absolute_url c self filename = LocalStore.relative_url c self filename
  <-> has_unsafe (LocalStore.url_join (url_parts prefix self filename)) = false.
Proof.
  intros Hd Hf Hp.
  rewrite (absolute_url_eq c self filename domain prefix Hd Hp).
  rewrite (relative_url_eq c self filename prefix Hp).
  rewrite (urljoin_falsy _ _ Hf). simpl rbind.
  set (j := LocalStore.url_join (url_parts prefix self filename)).
  split.
  - intros [= E]. destruct (has_unsafe j) eqn:U; [|reflexivity].
    apply path_to_uri_keeps_unsafe in U.
    apply (proj2 (path_to_uri_length _)) in U. rewrite E in U. lia.
  - intros U. now rewrite !(path_to_uri_safe j U).
Qed.

Lemma absolute_url_agrees_iff_safe_witness :
  LocalStore.absolute_url
    (<["STORE_DOMAIN" := PyStr ""]> (<["STORE_URL_PREFIX" := PyStr "/flaskstore"]> ∅))
    site "a.png"
  = LocalStore.relative_url
      (<["STORE_DOMAIN" := PyStr ""]> (<["STORE_URL_PREFIX" := PyStr "/flaskstore"]> ∅))
      site "a.png".
Proof.
  refine (proj2 (absolute_url_agrees_iff_safe
                   (<["STORE_DOMAIN" := PyStr ""]>
                      (<["STORE_URL_PREFIX" := PyStr "/flaskstore"]> ∅))
                   site "a.png" (PyStr "") "/flaskstore" _ _ _) _);
    reflexivity.
Defined.

(** X15.  Leading and trailing separators of the filename make no
    difference to [absolute_path], nor therefore to [exists]: the filename
    with a separator put before it or after it is looked up at the same
    path. *)
Theorem absolute_path_ignores_outer_separators {W : Type} (os : OS W)
    (self : Store) (filename : string) (w : W) :
  LocalStore.absolute_path self (PyStr.lstrip PyStr.sep filename)
  = LocalStore.absolute_path self filename
  /\ LocalStore.absolute_path self (PyStr.rstrip PyStr.sep filename)
     = LocalStore.absolute_path self filename
  /\ LocalStore.exists_ os self (String PyStr.sep filename) w
     = LocalStore.exists_ os self filename w
  /\ LocalStore.exists_ os self (filename +:+ "/") w
     = LocalStore.exists_ os self filename w.
Proof.
  assert (L : forall f, LocalStore.absolute_path self (PyStr.lstrip PyStr.sep f)
                        = LocalStore.absolute_path self f).
  { intros f. apply join_lstrip_ext. simpl. now rewrite lstrip_idem. }
  assert (R : forall f, LocalStore.absolute_path self (PyStr.rstrip PyStr.sep f)
                        = LocalStore.absolute_path self f).
  { intros f. unfold LocalStore.absolute_path, LocalStore.join. simpl.
    apply join2_rstrip. }
  assert (E1 : LocalStore.absolute_path self (String PyStr.sep filename)
               = LocalStore.absolute_path self filename).
  { rewrite <- (L (String PyStr.sep filename)), <- (L filename).
    now rewrite lstrip_cons_sep. }
  assert (E2 : LocalStore.absolute_path self (filename +:+ "/")
               = LocalStore.absolute_path self filename).
  { rewrite <- (R (filename +:+ "/")), <- (R filename).
    f_equal. apply (rstrip_snoc PyStr.sep filename). }
  split; [apply L|]. split; [apply R|].
  unfold LocalStore.exists_. unfold LocalStore.absolute_path in E1, E2.
  now rewrite E1, E2.
Qed.

(** ** Containment under any store path that is not made of separators *)

Section Containment.
Import PyStr PosixPath LocalStore.

(** A string is its stripped front followed by separators. *)
Lemma rstrip_decompose c s :
  exists t, s = rstrip c s +:+ t /\ all_chars c t = true.
Proof.
  induction s as [|a s (t & E & A)]; [now exists ""|].
  rewrite rstrip_cons. destruct (rstrip c s) as [|b r] eqn:R.
  - rewrite append_nil_l in E. subst s. destruct (Ascii.eqb a c) eqn:Ea.
    + exists (String a t). split; [reflexivity|]. simpl. now rewrite Ea.
    + exists t. now split.
  - exists t. split; [|exact A]. now rewrite append_cons, <- E.
Qed.

Lemma all_chars_endswith c t :
  t <> "" -> all_chars c t = true -> endswith c t = true.
Proof.
  induction t as [|a t IH]; [congruence|]. intros _.
  simpl all_chars. intros [Ha Ht]%andb_true_iff.
  destruct t as [|b r]; [exact Ha|].
  rewrite endswith_cons2. apply IH; [discriminate|exact Ht].
Qed.

Lemma split_all_chars c q x :
  all_chars c q = true -> In x (split c q) -> x = "".
Proof.
  revert x. induction q as [|a q IH]; intros x.
  - intros _ [<-|[]]. reflexivity.
  - simpl all_chars. intros [Ha Hq]%andb_true_iff.
    rewrite split_cons, Ha. intros [<-|H]; [reflexivity|now apply IH].
Qed.

Lemma split_seps_append c q g x :
  all_chars c q = true -> In x (split c (q +:+ g)) -> x = "" \/ In x (split c g).
Proof.
  induction q as [|a q IH]; [now right|].
  simpl all_chars. intros [Ha Hq]%andb_true_iff.
  rewrite append_cons, split_cons, Ha.
  intros [<-|H]; [now left|now apply IH].
Qed.

Lemma filter_real_empty l :
  (forall x, In x l -> x = "") -> List.filter real_comp l = [].
Proof.
  induction l as [|x l IH]; [reflexivity|]. intros H.
  simpl. rewrite (H x) by now left. simpl. apply IH.
  intros y Hy. apply H. now right.
Qed.

(** Separators after a path change neither its components nor its leading
    slashes. *)
Lemma comps_append_seps b q :
  startswith sep b = true -> endswith sep b = false ->
  all_chars sep q = true ->
  normpath_comps (b +:+ q) = normpath_comps b
  /\ initial_slashes (b +:+ q) = initial_slashes b.
Proof.
  intros Hs He Hq. split; [|now apply initial_slashes_append].
  unfold normpath_comps. rewrite (initial_slashes_append _ _ Hs He).
  destruct q as [|a q]; [now rewrite append_nil_r|].
  simpl in Hq. apply andb_true_iff in Hq as [Ha Hq].
  apply Ascii.eqb_eq in Ha. subst a.
  rewrite split_append, fold_left_app.
  rewrite fold_no_dotdot.
  - rewrite filter_real_empty; [now rewrite app_nil_r|].
    intros x. now apply split_all_chars.
  - intros I. now apply (split_all_chars sep q "..") in I.
Qed.

(** A path without a trailing separator, extended past a separator by
    components none of which is [..]. *)
Lemma comps_extend b t0 :
  startswith sep b = true -> endswith sep b = false ->
  ~ In ".." (split sep t0) ->
  initial_slashes (b +:+ rstrip sep (String sep t0)) = initial_slashes b
  /\ exists rest,
       normpath_comps (b +:+ rstrip sep (String sep t0))
       = normpath_comps b ++ rest.
Proof.
  intros H E N. split; [now apply initial_slashes_append|].
  unfold normpath_comps. rewrite (initial_slashes_append _ _ H E).
  rewrite rstrip_cons. destruct (rstrip sep t0) as [|x r] eqn:R.
  - exists []. rewrite Ascii.eqb_refl, append_nil_r. now rewrite app_nil_r.
  - exists (List.filter real_comp (split sep (String x r))).
    rewrite split_append, fold_left_app. apply fold_no_dotdot.
    intros I. apply N.
    destruct (split_rstrip sep t0) as [k ->].
    apply in_or_app. left. now rewrite R.
Qed.

(** The joined path, for a store path that is not made of separators. *)
Lemma absolute_path_form self f :
  all_chars sep (store_path self) = false ->
  exists q,
    all_chars sep q = true
    /\ absolute_path self f
       = rstrip sep (store_path self)
         +:+ rstrip sep (String sep (q +:+ lstrip sep f)).
Proof.
  intros Hn. unfold absolute_path, join. simpl join_loop. rewrite join2_empty_l.
  destruct (rstrip_decompose sep (store_path self)) as (t & E & A).
  set (b := rstrip sep (store_path self)) in *.
  assert (Eb : endswith sep b = false) by apply endswith_rstrip.
  unfold PosixPath.join2. rewrite startswith_lstrip.
  destruct t as [|a t].
  - rewrite append_nil_r in E. exists "". split; [reflexivity|].
    rewrite E, Eb.
    assert (Nb : String.eqb b "" = false).
    { apply String.eqb_neq. intros Z. rewrite E, Z in Hn. discriminate. }
    rewrite Nb. simpl orb. cbv iota. rewrite append_nil_l.
    now apply rstrip_append.
  - simpl in A. apply andb_true_iff in A as [Ha At].
    apply Ascii.eqb_eq in Ha. subst a.
    assert (Et : endswith sep (store_path self) = true).
    { rewrite E, endswith_append by discriminate.
      apply all_chars_endswith; [discriminate|]. simpl.
      now rewrite At. }
    rewrite Et, orb_true_r. exists t. split; [exact At|].
    rewrite E at 1. rewrite append_assoc, append_cons.
    now apply rstrip_append.
Qed.

End Containment.

(** X16.  For a store path that is absolute and not made of separators
    only, and a filename none of whose components is [..], the path
    [absolute_path] builds resolves to the store path or to a location under
    it, whatever separators the store path ends in or the filename begins
    with. *)
Theorem absolute_path_resolves_under (self : Store) (filename : string) :
  PyStr.startswith PyStr.sep (store_path self) = true ->
  PyStr.all_chars PyStr.sep (store_path self) = false ->
  ~ In ".." (PyStr.split PyStr.sep filename) ->
  resolves_under (store_path self) (LocalStore.absolute_path self filename) = true.
Proof.
  intros Hs Hn N.
  destruct (rstrip_decompose PyStr.sep (store_path self)) as (t & E & A).
  destruct (absolute_path_form self filename Hn) as (q & Aq & J).
  set (b := PyStr.rstrip PyStr.sep (store_path self)) in *.
  assert (Eb : PyStr.endswith PyStr.sep b = false) by apply endswith_rstrip.
  assert (Sb : PyStr.startswith PyStr.sep b = true).
  { destruct b as [|x r] eqn:B.
    - rewrite append_nil_l in E. rewrite E, A in Hn. discriminate.
    - rewrite E in Hs. exact Hs. }
  destruct (comps_append_seps b t Sb Eb A) as [Cb Ib]. rewrite <- E in Cb, Ib.
  destruct (comps_extend b (q +:+ PyStr.lstrip PyStr.sep filename) Sb Eb)
    as [Ij [rest Cj]].
  { intros I. apply (split_seps_append _ _ _ _ Aq) in I as [I|I]; [discriminate|].
    now apply N, split_lstrip_incl. }
  rewrite <- J in Ij, Cj.
  apply (under_of_comps _ _ rest).
  - exact Hs.
  - rewrite J. now apply startswith_append.
  - now rewrite Ij, Ib.
  - now rewrite Cj, Cb.
Qed.

Lemma absolute_path_resolves_under_witness :
  resolves_under "//srv/store//"
    (LocalStore.absolute_path {| store_path := "//srv/store//"; destination := None |}
       "/a/./b.png/") = true.
Proof.
  apply (absolute_path_resolves_under
           {| store_path := "//srv/store//"; destination := None |} "/a/./b.png/").
  - reflexivity.
  - reflexivity.
  - simpl. intros [H|[H|[H|[H|[H|[]]]]]]; discriminate.
Defined.



